(** * Tabular Q-learning over a two-qubit circuit environment

    A shallow embedding of [qlearning.py]: the gym-style environment
    [QuantumEnv] that grows a two-qubit circuit gate by gate and scores it
    against the iSWAP unitary, the agent [QLearningAgent] with its Q-table,
    and the two driver loops [train_agent] and [test_agent].

    Modelling conventions.
    - Python [int] is [Z]; numpy [float64] is an exact rational [Q] (rounding
      is not modelled); an exception is a value of [exn] carried by [result].
    - Matrix entries live in Q(sqrt 2)(i), which holds every entry of the
      seven catalogued gates and of the target matrices exactly, so the
      fidelity test is decided without rounding.
    - The libraries the program calls but does not define (the circuit text
      drawer, SHA-256, the Aer unitary simulator) are the fields of the
      class [Backend]; numpy's global generator is the oracle [RandomState].
    - [dict] is a [gmap], a numpy array is a list of rows, [print] appends a
      line to [stdout]. *)

From Stdlib Require Import ZArith QArith Qminmax Qreals Lia Lra Reals.
From stdpp Require Import base gmap list strings pretty.

Open Scope Z_scope.

(** ** Python runtime: exceptions and sequence indexing *)

Inductive exn : Type :=
| TypeError
| IndexError
| ValueError
| CircuitError.

Inductive result (A : Type) : Type :=
| Ok (a : A)
| Raise (e : exn).

Arguments Ok {A} a.
Arguments Raise {A} e.

#[global] Instance result_ret : MRet result := fun A a => Ok a.

#[global] Instance result_bind : MBind result := fun A B k m =>
  match m with
  | Ok a => k a
  | Raise e => Raise e
  end.

(** [seq[i]] for a sequence of length [n]: a negative index counts from the
    end, anything outside [-n, n) is an [IndexError]. *)
Definition py_index (n : nat) (i : Z) : result nat :=
  if (0 <=? i) && (i <? Z.of_nat n) then Ok (Z.to_nat i)
  else if (- Z.of_nat n <=? i) && (i <? 0) then Ok (Z.to_nat (i + Z.of_nat n))
  else Raise IndexError.

Definition py_getitem {A : Type} (l : list A) (i : Z) : result A :=
  k ← py_index (length l) i;
  match l !! k with
  | Some x => Ok x
  | None => Raise IndexError
  end.

(** ** Exact numbers: Q(sqrt 2), Q(sqrt 2)(i) and magnitudes *)

(** [rat_part + root_part * sqrt 2]. *)
Record Qsqrt2 : Type := mkQsqrt2 { rat_part : Q; root_part : Q }.

Definition Qs2_of_Q (q : Q) : Qsqrt2 := mkQsqrt2 (Qred q) 0.

Definition Qs2_add (x y : Qsqrt2) : Qsqrt2 :=
  mkQsqrt2 (Qred (rat_part x + rat_part y)) (Qred (root_part x + root_part y)).

Definition Qs2_opp (x : Qsqrt2) : Qsqrt2 :=
  mkQsqrt2 (Qred (- rat_part x)) (Qred (- root_part x)).

Definition Qs2_sub (x y : Qsqrt2) : Qsqrt2 := Qs2_add x (Qs2_opp y).

Definition Qs2_mul (x y : Qsqrt2) : Qsqrt2 :=
  mkQsqrt2
    (Qred (rat_part x * rat_part y + 2 * (root_part x * root_part y)))
    (Qred (rat_part x * root_part y + root_part x * rat_part y)).

Definition Qs2_scale (q : Q) (x : Qsqrt2) : Qsqrt2 :=
  mkQsqrt2 (Qred (q * rat_part x)) (Qred (q * root_part x)).

(** Sign test: is [p + r * sqrt 2] strictly positive?  When [p] and [r] have
    opposite signs the two squares [p^2] and [2 r^2] are compared. *)
Definition Qs2_pos (x : Qsqrt2) : bool :=
  let p := rat_part x in
  let r := root_part x in
  match (0 ?= p)%Q, (0 ?= r)%Q with
  | Lt, Lt | Lt, Eq | Eq, Lt => true
  | Lt, Gt => if Qlt_le_dec (2 * (r * r)) (p * p) then true else false
  | Gt, Lt => if Qlt_le_dec (p * p) (2 * (r * r)) then true else false
  | _, _ => false
  end.

Definition Qs2_ltb (x y : Qsqrt2) : bool := Qs2_pos (Qs2_sub y x).

(** A complex number with both parts in Q(sqrt 2). *)
Record Complex : Type := mkComplex { re : Qsqrt2; im : Qsqrt2 }.

Definition C_of_Q (q : Q) : Complex := mkComplex (Qs2_of_Q q) (Qs2_of_Q 0).
Definition C0 : Complex := C_of_Q 0.
Definition C1 : Complex := C_of_Q 1.
(** The imaginary unit, Python's [1j]. *)
Definition Cj : Complex := mkComplex (Qs2_of_Q 0) (Qs2_of_Q 1).
(** [1 / np.sqrt(2)], that is [sqrt 2 / 2]. *)
Definition Cinv_sqrt2 : Complex := mkComplex (mkQsqrt2 0 (1 # 2)) (Qs2_of_Q 0).

Definition Cadd (z w : Complex) : Complex :=
  mkComplex (Qs2_add (re z) (re w)) (Qs2_add (im z) (im w)).

Definition Copp (z : Complex) : Complex :=
  mkComplex (Qs2_opp (re z)) (Qs2_opp (im z)).

Definition Cmul (z w : Complex) : Complex :=
  mkComplex (Qs2_sub (Qs2_mul (re z) (re w)) (Qs2_mul (im z) (im w)))
            (Qs2_add (Qs2_mul (re z) (im w)) (Qs2_mul (im z) (re w))).

Definition Cconj (z : Complex) : Complex := mkComplex (re z) (Qs2_opp (im z)).

(** A non-negative real number known through its square. *)
Record Magnitude : Type := mkMagnitude { squared : Qsqrt2 }.

(** [np.abs z] for a complex scalar: the square is [re^2 + im^2]. *)
Definition np_abs (z : Complex) : Magnitude :=
  mkMagnitude (Qs2_add (Qs2_mul (re z) (re z)) (Qs2_mul (im z) (im z))).

(** [m / k] for an integer [k]; [k = 0] is numpy's division by zero and is
    not reached, since the divisor is a power of two. *)
Definition Mag_div (m : Magnitude) (k : Z) : Magnitude :=
  mkMagnitude (Qs2_scale (/ (inject_Z k * inject_Z k)) (squared m)).

(** [m > q]: immediate for negative [q], otherwise a comparison of squares. *)
Definition Mag_gtb (m : Magnitude) (q : Q) : bool :=
  if Qlt_le_dec q 0 then true else Qs2_ltb (Qs2_of_Q (q * q)) (squared m).

(** ** Matrices as numpy has them: a list of rows *)

Definition Matrix : Type := list (list Complex).

Definition Csum (l : list Complex) : Complex := foldr Cadd C0 l.

Definition entry (M : Matrix) (i j : nat) : Complex :=
  match M !! i with
  | Some row => default C0 (row !! j)
  | None => C0
  end.

Definition column (M : Matrix) (j : nat) : list Complex :=
  map (fun row => default C0 (row !! j)) M.

Definition ncols (M : Matrix) : nat :=
  match M with
  | [] => O
  | row :: _ => length row
  end.

(** [M.T] *)
Definition transpose (M : Matrix) : Matrix :=
  map (column M) (seq 0 (ncols M)).

(** [M.conj()] *)
Definition conj (M : Matrix) : Matrix := map (map Cconj) M.

Definition dot (u v : list Complex) : Complex :=
  Csum (zip_with Cmul u v).

(** [A @ B] *)
Definition matmul (A B : Matrix) : Matrix :=
  map (fun row => map (fun j => dot row (column B j)) (seq 0 (ncols B))) A.

(** [np.trace M] *)
Definition trace (M : Matrix) : Complex :=
  Csum (imap (fun i row => default C0 (row !! i)) M).

(** [np.eye n] *)
Definition eye (n : nat) : Matrix :=
  map (fun i => map (fun j => if Nat.eqb i j then C1 else C0) (seq 0 n)) (seq 0 n).

(** [np.kron A B] *)
Definition kron (A B : Matrix) : Matrix :=
  flat_map (fun arow =>
    map (fun brow => flat_map (fun a => map (Cmul a) brow) arow) B) A.

Definition scale (c : Complex) (M : Matrix) : Matrix := map (map (Cmul c)) M.

Definition of_ints (M : list (list Z)) : Matrix :=
  map (map (fun z => C_of_Q (inject_Z z))) M.

(** ** The target unitaries defined at module level *)

Definition H : Matrix := scale Cinv_sqrt2 (of_ints [[1; 1]; [1; -1]]).

Definition CNOT : Matrix :=
  of_ints [[1; 0; 0; 0]; [0; 1; 0; 0]; [0; 0; 0; 1]; [0; 0; 1; 0]].

Definition bell_state_unitary : Matrix := matmul CNOT (kron H (eye 2)).

Definition cz_matrix : Matrix :=
  of_ints [[1; 0; 0; 0]; [0; 1; 0; 0]; [0; 0; 1; 0]; [0; 0; 0; -1]].

Definition swap_matrix : Matrix :=
  of_ints [[1; 0; 0; 0]; [0; 0; 1; 0]; [0; 1; 0; 0]; [0; 0; 0; 1]].

Definition iswap_matrix : Matrix :=
  [[C1; C0; C0; C0]; [C0; C0; Cj; C0]; [C0; Cj; C0; C0]; [C0; C0; C0; C1]].


(** ** Gates, dynamically typed values and circuits *)

(** The gate classes imported from [qiskit.circuit.library]. *)
Inductive Gate : Type :=
| HGate
| CXGate
| SGate
| TGate
| XGate
| YGate
| ZGate.

#[local] Set Warnings "-register-all".

(** The Python values that travel between the agent, the loops and the
    environment: gate objects, integers, lists and tuples. *)
Inductive pyobj : Type :=
| PyGate (g : Gate)
| PyInt (z : Z)
| PyList (items : list pyobj)
| PyTuple (items : list pyobj).

(** [obj[i]] *)
Definition py_subscript (obj : pyobj) (i : Z) : result pyobj :=
  match obj with
  | PyList items | PyTuple items => py_getitem items i
  | PyGate _ | PyInt _ => Raise TypeError
  end.

Fixpoint result_mapM {A B : Type} (f : A -> result B) (l : list A) : result (list B) :=
  match l with
  | [] => Ok []
  | x :: xs => y ← f x; ys ← result_mapM f xs; Ok (y :: ys)
  end.

Definition gate_num_qubits (g : Gate) : nat :=
  match g with
  | CXGate => 2%nat
  | _ => 1%nat
  end.

Record Instruction : Type := mkInstruction { operation : Gate; qubits : list nat }.

(** A circuit: the size of its qubit register and its instructions in order. *)
Record QuantumCircuit : Type := mkCircuit { register_size : nat; instructions : list Instruction }.

(** [QuantumCircuit(n)]: an empty circuit on [n] qubits. *)
Definition QuantumCircuit_new (n : nat) : QuantumCircuit := mkCircuit n [].

(** [circuit.size()]: the number of gate instructions. *)
Definition size_of (c : QuantumCircuit) : Z := Z.of_nat (length (instructions c)).

Definition as_gate (obj : pyobj) : result Gate :=
  match obj with
  | PyGate g => Ok g
  | _ => Raise CircuitError
  end.

(** One qubit specifier of [qargs]: an integer indexes the register the way
    a list is indexed. *)
Definition as_qubit (n : nat) (obj : pyobj) : result nat :=
  match obj with
  | PyInt q =>
      match py_index n q with
      | Ok k => Ok k
      | Raise _ => Raise CircuitError
      end
  | _ => Raise CircuitError
  end.

Definition as_qargs (n : nat) (obj : pyobj) : result (list nat) :=
  match obj with
  | PyList items | PyTuple items => result_mapM (as_qubit n) items
  | _ => Raise CircuitError
  end.

Fixpoint has_duplicate (l : list nat) : bool :=
  match l with
  | [] => false
  | x :: xs => existsb (Nat.eqb x) xs || has_duplicate xs
  end.

(** [circuit.append(instruction, qargs)] for a gate and a flat list of qubit
    indices: the number of indices must be the gate's arity and no qubit may
    occur twice, otherwise qiskit raises [CircuitError]. *)
Definition append (c : QuantumCircuit) (instruction qargs : pyobj) : result QuantumCircuit :=
  g ← as_gate instruction;
  qs ← as_qargs (register_size c) qargs;
  if negb (Nat.eqb (length qs) (gate_num_qubits g)) then Raise CircuitError
  else if has_duplicate qs then Raise CircuitError
  else Ok (mkCircuit (register_size c) (instructions c ++ [mkInstruction g qs])).

(** ** The libraries behind the environment *)

Class Backend : Type := mkBackend {
  (** [circuit.draw(output='text').__str__()], also what [render] prints *)
  draw_text : QuantumCircuit -> string;
  (** [int(hashlib.sha256(s.encode('utf-8')).hexdigest(), 16)] *)
  sha256_int : string -> N;
  (** [simulator.run(transpile(circuit, simulator)).result().get_unitary(circuit)]
      on Aer's [unitary_simulator] *)
  unitary_simulator : QuantumCircuit -> Matrix;
}.

(** ** A reference backend, to run the program on concrete inputs *)

Module Reference.

Definition gate_matrix (g : Gate) : Matrix :=
  match g with
  | HGate => H
  | SGate => [[C1; C0]; [C0; Cj]]
  | TGate => [[C1; C0]; [C0; Cmul Cinv_sqrt2 (Cadd C1 Cj)]]
  | XGate => of_ints [[0; 1]; [1; 0]]
  | YGate => [[C0; Copp Cj]; [Cj; C0]]
  | ZGate => of_ints [[1; 0]; [0; -1]]
  | CXGate => of_ints [[1; 0; 0; 0]; [0; 1; 0; 0]; [0; 0; 0; 1]; [0; 0; 1; 0]]
  end.

(** Bit [q] of a basis-state index; qubit 0 is the least significant bit. *)
Definition bit (q : nat) (k : nat) : nat := if Nat.testbit k q then 1%nat else 0%nat.

Definition clear_bit (q : nat) (k : nat) : nat := Nat.ldiff k (Nat.shiftl 1 q).

(** A one-qubit gate [G] acting on qubit [q] of an [n]-qubit register. *)
Definition on_qubit (n : nat) (G : Matrix) (q : nat) : Matrix :=
  map (fun r => map (fun c =>
    if Nat.eqb (clear_bit q r) (clear_bit q c) then entry G (bit q r) (bit q c) else C0)
    (seq 0 (2 ^ n))) (seq 0 (2 ^ n)).

(** CX with control [c] and target [t]: a permutation of the basis states. *)
Definition controlled_x (n : nat) (c t : nat) : Matrix :=
  map (fun r => map (fun k =>
    let image := if Nat.testbit k c then Nat.lxor k (Nat.shiftl 1 t) else k in
    if Nat.eqb r image then C1 else C0)
    (seq 0 (2 ^ n))) (seq 0 (2 ^ n)).

Definition instruction_unitary (n : nat) (ins : Instruction) : Matrix :=
  match operation ins, qubits ins with
  | CXGate, [c; t] => controlled_x n c t
  | g, [q] => on_qubit n (gate_matrix g) q
  | _, _ => eye (2 ^ n)
  end.

(** The unitary of a circuit: later gates multiply from the left. *)
Definition circuit_unitary (c : QuantumCircuit) : Matrix :=
  fold_left (fun U ins => matmul (instruction_unitary (register_size c) ins) U)
            (instructions c) (eye (2 ^ register_size c)).

Definition gate_name (g : Gate) : string :=
  match g with
  | HGate => "h"
  | CXGate => "cx"
  | SGate => "s"
  | TGate => "t"
  | XGate => "x"
  | YGate => "y"
  | ZGate => "z"
  end.

(** A one-line rendering, one word per instruction. *)
Definition render_line (c : QuantumCircuit) : string :=
  foldr (fun ins acc =>
    gate_name (operation ins) +:+ foldr (fun q s => "_" +:+ pretty q +:+ s) "" (qubits ins)
    +:+ ";" +:+ acc) "" (instructions c).

(** A stand-in digest: the number of characters of the text. *)
Definition digest (s : string) : N := N.of_nat (String.length s).

Definition backend : Backend :=
  mkBackend render_line digest circuit_unitary.

End Reference.

(** ** numpy's global random generator *)

(** The generator is an arbitrary source of naturals read one after the
    other; nothing is assumed about their distribution. *)
Record RandomState : Type := mkRandomState { draws : nat -> N; cursor : nat }.

Definition next_draw (rs : RandomState) : N * RandomState :=
  (draws rs (cursor rs), mkRandomState (draws rs) (S (cursor rs))).

(** [np.random.rand()]: 53 random bits scaled into [0, 1). *)
Definition rand (rs : RandomState) : Q * RandomState :=
  let (d, rs') := next_draw rs in
  (inject_Z (Z.of_N d mod 2 ^ 53) / inject_Z (2 ^ 53), rs')%Q.

(** [np.random.randint(high)]: an integer of [0, high), [ValueError] when
    the range is empty. *)
Definition randint (rs : RandomState) (high : Z) : result (Z * RandomState) :=
  if high <=? 0 then Raise ValueError
  else let (d, rs') := next_draw rs in Ok (Z.of_N d mod high, rs').

(** ** numpy reductions over a row, and Python's [max] of two numbers *)

Fixpoint argmax_from (best_i : nat) (best : Q) (i : nat) (l : list Q) : nat :=
  match l with
  | [] => best_i
  | x :: xs =>
      if Qlt_le_dec best x then argmax_from i x (S i) xs
      else argmax_from best_i best (S i) xs
  end.

(** [np.argmax row]: the first index holding the maximum. *)
Definition np_argmax (row : list Q) : result Z :=
  match row with
  | [] => Raise ValueError
  | x :: xs => Ok (Z.of_nat (argmax_from 0 x 1 xs))
  end.

(** [max(a, b)]: [b] only when it is strictly greater. *)
Definition py_max (a b : Q) : Q := if Qlt_le_dec a b then b else a.

(** [np.max row] *)
Definition np_max (row : list Q) : result Q :=
  match row with
  | [] => Raise ValueError
  | x :: xs => Ok (fold_left py_max xs x)
  end.

(** [table[i, j]] on a two-dimensional array. *)
Definition np_getitem2 (table : list (list Q)) (i j : Z) : result Q :=
  row ← py_getitem table i;
  py_getitem row j.

(** [table[i, j] = v] *)
Definition np_setitem2 (table : list (list Q)) (i j : Z) (v : Q) : result (list (list Q)) :=
  row ← py_getitem table i;
  r ← py_index (length table) i;
  c ← py_index (length row) j;
  Ok (<[r := <[c := v]> row]> table).

(** [np.zeros((rows, cols))] *)
Definition np_zeros (rows cols : Z) : result (list (list Q)) :=
  if (rows <? 0) || (cols <? 0) then Raise ValueError
  else Ok (replicate (Z.to_nat rows) (replicate (Z.to_nat cols) 0%Q)).

(** ** The environment *)

Record QuantumEnv : Type := mkQuantumEnv {
  num_qubits : nat;
  circuit : QuantumCircuit;
  target_unitary : Matrix;
  state_to_index : gmap Z Z;
  index_to_state : list Z;
}.

(** [QuantumEnv()]; the two gym spaces are never read and are left out. *)
Definition QuantumEnv_init : QuantumEnv :=
  mkQuantumEnv 2 (QuantumCircuit_new 2) iswap_matrix ∅ [].

Definition with_circuit (self : QuantumEnv) (c : QuantumCircuit) : QuantumEnv :=
  mkQuantumEnv (num_qubits self) c (target_unitary self)
               (state_to_index self) (index_to_state self).

Section Environment.
Context {B : Backend}.

Definition _hash_circuit (circuit : QuantumCircuit) : Z :=
  let circuit_str := draw_text circuit in
  let hash_int := Z.of_N (sha256_int circuit_str) in
  hash_int mod 100.

(** The entry read by the final subscript is the one found, or the one just
    stored. *)
Definition get_state_index (self : QuantumEnv) (state : QuantumCircuit) : QuantumEnv * Z :=
  let state_hash := _hash_circuit state in
  match state_to_index self !! state_hash with
  | None =>
      let index := Z.of_nat (size (state_to_index self)) in
      (mkQuantumEnv (num_qubits self) (circuit self) (target_unitary self)
                    (<[state_hash := index]> (state_to_index self))
                    (index_to_state self ++ [state_hash]),
       index)
  | Some index => (self, index)
  end.

Definition reset (self : QuantumEnv) : QuantumEnv * Z :=
  let self := with_circuit self (QuantumCircuit_new (num_qubits self)) in
  get_state_index self (circuit self).

Definition fidelity_of (self : QuantumEnv) (target_unitary : Matrix) : Magnitude :=
  let unitary := unitary_simulator (circuit self) in
  Mag_div (np_abs (trace (matmul (transpose (conj unitary)) target_unitary)))
          (2 ^ Z.of_nat (num_qubits self)).

Definition _reward (self : QuantumEnv) (target_unitary : Matrix) : Z * bool :=
  let fidelity := fidelity_of self target_unitary in
  let reward := -5 * size_of (circuit self) in
  if Mag_gtb fidelity 0.99 then (reward + 100, true) else (reward, false).

Definition step (self : QuantumEnv) (action qubits : pyobj)
  : result (QuantumEnv * (Z * Z * bool)) :=
  c ← append (circuit self) action qubits;
  let self := with_circuit self c in
  let (self, state_index) := get_state_index self (circuit self) in
  let (reward, done) := _reward self (target_unitary self) in
  Ok (self, (state_index, reward, done)).

(** A call of [environment.step] with the positional arguments [args]:
    [step] has the two parameters [action] and [qubits] and no defaults, so
    any other number of positional arguments is a [TypeError] raised before
    the body runs. *)
Definition step_call (self : QuantumEnv) (args : list pyobj)
  : result (QuantumEnv * (Z * Z * bool)) :=
  match args with
  | [action; qubits] => step self action qubits
  | _ => Raise TypeError
  end.

(** [render] prints the drawing of the current circuit. *)
Definition render (self : QuantumEnv) (stdout : list string) : list string :=
  stdout ++ [draw_text (circuit self)].

End Environment.

(** ** The Q-learning agent *)

Record QLearningAgent : Type := mkQLearningAgent {
  state_size : Z;
  action_size : Z;
  alpha : Q;
  gamma : Q;
  epsilon : Q;
  decay_rate : Q;
  epsilon_min : Q;
  q_table : list (list Q);
}.

(** [QLearningAgent(state_size, action_size, alpha, gamma, epsilon,
    decay_rate, epsilon_min)] *)
Definition QLearningAgent_init (state_size action_size : Z)
    (alpha gamma epsilon decay_rate epsilon_min : Q) : result QLearningAgent :=
  table ← np_zeros state_size action_size;
  Ok (mkQLearningAgent state_size action_size alpha gamma epsilon decay_rate
                       epsilon_min table).

Definition with_q_table (self : QLearningAgent) (table : list (list Q)) : QLearningAgent :=
  mkQLearningAgent (state_size self) (action_size self) (alpha self) (gamma self)
                   (epsilon self) (decay_rate self) (epsilon_min self) table.

Definition with_epsilon (self : QLearningAgent) (e : Q) : QLearningAgent :=
  mkQLearningAgent (state_size self) (action_size self) (alpha self) (gamma self)
                   e (decay_rate self) (epsilon_min self) (q_table self).

(** One catalogue entry, the Python list [[gate, [q, ...]]]. *)
Definition catalog_entry (g : Gate) (qs : list Z) : pyobj :=
  PyList [PyGate g; PyList (map PyInt qs)].

Definition possible_actions : list pyobj :=
  [ catalog_entry HGate [0];
    catalog_entry HGate [1];
    catalog_entry CXGate [0; 1];
    catalog_entry CXGate [1; 0];
    catalog_entry SGate [0];
    catalog_entry SGate [1];
    catalog_entry TGate [0];
    catalog_entry TGate [1];
    catalog_entry XGate [0];
    catalog_entry XGate [1];
    catalog_entry YGate [0];
    catalog_entry YGate [1];
    catalog_entry ZGate [0];
    catalog_entry ZGate [1] ].

(** Returns the pair [(possible_actions[action], action)] and the generator
    after the draws. *)
Definition choose_action (self : QLearningAgent) (rs : RandomState) (state_index : Z)
  : result (pyobj * Z * RandomState) :=
  let (r, rs) := rand rs in
  '(action, rs) ←
    (if Qlt_le_dec r (epsilon self) then randint rs (action_size self)
     else
       row ← py_getitem (q_table self) state_index;
       action ← np_argmax row;
       Ok (action, rs));
  chosen ← py_getitem possible_actions action;
  Ok (chosen, action, rs).

(** The augmented assignment reads [q_table[state_index, action]], evaluates
    the right-hand side and stores the sum. *)
Definition update_q_table (self : QLearningAgent)
    (state_index action : Z) (reward : Q) (next_state_index : Z) : result QLearningAgent :=
  old ← np_getitem2 (q_table self) state_index action;
  next_row ← py_getitem (q_table self) next_state_index;
  best_next ← np_max next_row;
  let delta := (alpha self * (reward + gamma self * best_next - old))%Q in
  table ← np_setitem2 (q_table self) state_index action (old + delta)%Q;
  Ok (with_q_table self table).

Definition decay_exploration (self : QLearningAgent) : QLearningAgent :=
  with_epsilon self (py_max (epsilon_min self) (epsilon self * decay_rate self)%Q).

(** ** The training and evaluation loops *)

(** Everything the loops read and write: the two objects passed in, numpy's
    generator and the lines printed so far. *)
Record World : Type := mkWorld {
  agent : QLearningAgent;
  environment : QuantumEnv;
  random : RandomState;
  stdout : list string;
}.

(** How a pass through a loop body ends: with [break] or by falling through. *)
Inductive control : Type :=
| Break
| Continue.

Definition episode_line (episode episode_reward : Z) : string :=
  "Episode " +:+ pretty (episode + 1) +:+ ": Total Reward = " +:+ pretty episode_reward.

Section Loops.
Context {B : Backend}.

(** The body of the inner [for] of [train_agent]; the result carries the
    new [state_index] and [episode_reward]. *)
Definition train_step (episode : Z) (w : World) (state_index episode_reward : Z)
  : result (World * Z * Z * control) :=
  '(action, action_index, rs) ← choose_action (agent w) (random w) state_index;
  gate ← py_subscript action 0;
  targets ← py_subscript action 1;
  '(env, (next_state_index, reward, done)) ← step_call (environment w) [gate; targets];
  let episode_reward := episode_reward + reward in
  ag ← update_q_table (agent w) state_index action_index (inject_Z reward) next_state_index;
  let state_index := next_state_index in
  if done : bool then
    let out := render env (stdout w ++ ["Generated circuit:"]) in
    let out := out ++ [episode_line episode episode_reward] in
    Ok (mkWorld ag env rs out, state_index, episode_reward, Break)
  else if 10 <? size_of (circuit env) then
    Ok (mkWorld ag env rs (stdout w), state_index, episode_reward - 100, Break)
  else
    Ok (mkWorld ag env rs (stdout w), state_index, episode_reward, Continue).

(** [for step in range(n)] of [train_agent]. *)
Fixpoint train_steps (n : nat) (episode : Z) (w : World) (state_index episode_reward : Z)
  : result (World * Z) :=
  match n with
  | O => Ok (w, episode_reward)
  | S n' =>
      '(w, state_index, episode_reward, ctl) ← train_step episode w state_index episode_reward;
      match ctl with
      | Break => Ok (w, episode_reward)
      | Continue => train_steps n' episode w state_index episode_reward
      end
  end.

(** The first part of the body of the outer [for] of [train_agent]: the
    reset and the inner loop, with the value of [episode_reward] after it. *)
Definition train_rollout (max_steps_per_episode : Z) (episode : Z) (w : World)
  : result (World * Z) :=
  let (env, state_index) := reset (environment w) in
  let w := mkWorld (agent w) env (random w) (stdout w) in
  let episode_reward := 0 in
  train_steps (Z.to_nat max_steps_per_episode) episode w state_index episode_reward.

(** The body of the outer [for] of [train_agent]. *)
Definition train_episode (max_steps_per_episode : Z) (episode : Z) (w : World)
  : result World :=
  '(w, episode_reward) ← train_rollout max_steps_per_episode episode w;
  let out :=
    if (episode + 1) mod 100 =? 0 then stdout w ++ [episode_line episode episode_reward]
    else stdout w in
  Ok (mkWorld (decay_exploration (agent w)) (environment w) (random w) out).

(** [for episode in range(...)], with [n] episodes left and [episode] next. *)
Fixpoint for_episodes (body : Z -> World -> result World) (n : nat) (episode : Z) (w : World)
  : result World :=
  match n with
  | O => Ok w
  | S n' => w ← body episode w; for_episodes body n' (episode + 1) w
  end.

Definition train_agent (w : World) (episodes max_steps_per_episode : Z) : result World :=
  for_episodes (train_episode max_steps_per_episode) (Z.to_nat episodes) 0 w.

(** The body of the inner [for] of [test_agent]: [action] is the whole pair
    returned by [choose_action], and it is the only argument of [step]. *)
Definition test_step (w : World) (state_index : Z) : result (World * Z * control) :=
  '(chosen, action_index, rs) ← choose_action (agent w) (random w) state_index;
  let action := PyTuple [chosen; PyInt action_index] in
  '(env, (next_state_index, reward, done)) ← step_call (environment w) [action];
  let state_index := next_state_index in
  let out := render env (stdout w) in
  Ok (mkWorld (agent w) env rs out, state_index, if done : bool then Break else Continue).

Fixpoint test_steps (n : nat) (w : World) (state_index : Z) : result World :=
  match n with
  | O => Ok w
  | S n' =>
      '(w, state_index, ctl) ← test_step w state_index;
      match ctl with
      | Break => Ok w
      | Continue => test_steps n' w state_index
      end
  end.

Definition test_episode (max_steps_per_episode : Z) (episode : Z) (w : World)
  : result World :=
  let (env, _) := reset (environment w) in
  let (env, state_index) := reset env in
  let w := mkWorld (agent w) env (random w) (stdout w) in
  test_steps (Z.to_nat max_steps_per_episode) w state_index.

Definition test_agent (w : World) (episodes max_steps_per_episode : Z) : result World :=
  for_episodes (test_episode max_steps_per_episode) (Z.to_nat episodes) 0 w.

End Loops.

(** The agent built by the main block. *)
Definition main_agent : result QLearningAgent :=
  QLearningAgent_init 100 14 0.05 0.95 0.9 0.99 0.01.

(** ** Real-number reading of the exact numbers *)

Definition Qs2_to_R (x : Qsqrt2) : R :=
  (Q2R (rat_part x) + Q2R (root_part x) * sqrt 2)%R.

(** The modulus of a complex number, [sqrt (re^2 + im^2)]. *)
Definition Cmod_R (z : Complex) : R :=
  sqrt (Qs2_to_R (re z) * Qs2_to_R (re z) + Qs2_to_R (im z) * Qs2_to_R (im z))%R.

Definition Mag_to_R (m : Magnitude) : R := sqrt (Qs2_to_R (squared m)).

(** ** Predicates used in the statements *)

(** [m] is a maximum of [row]. *)
Definition is_max (row : list Q) (m : Q) : Prop :=
  m ∈ row /\ forall x, x ∈ row -> (x <= m)%Q.

Definition all_zero (table : list (list Q)) : Prop :=
  Forall (Forall (fun x => x == 0)%Q) table.

(** The cell [(i, j)] of a table, when it exists. *)
Definition cell (table : list (list Q)) (i j : nat) : option Q :=
  table !! i ≫= (.!! j).

(** [n] successive calls of [decay_exploration]. *)
Definition decayed (n : nat) (self : QLearningAgent) : QLearningAgent :=
  Nat.iter n decay_exploration self.

(** The shape of the agent built by the main block: 100 rows of 14 values. *)
Definition agent_ok (self : QLearningAgent) : Prop :=
  action_size self = 14 /\
  length (q_table self) = 100%nat /\
  Forall (fun row => length row = 14%nat) (q_table self).

(** The exploration parameters of an agent. *)
Definition exploration (self : QLearningAgent) : Q * Q * Q :=
  (epsilon self, decay_rate self, epsilon_min self).

(** ** States of the environment that the program can reach *)

Section Reachability.
Context {B : Backend}.

Inductive reachable : QuantumEnv -> Prop :=
| reachable_init : reachable QuantumEnv_init
| reachable_reset self : reachable self -> reachable (reset self).1
| reachable_index self state : reachable self -> reachable (get_state_index self state).1
| reachable_step self action qubits self' out :
    reachable self -> step self action qubits = Ok (self', out) -> reachable self'.

(** The two sides of the State Index Table agree, every key is a bucket id
    and the indices are the positions [0 .. len - 1]. *)
Record table_ok (self : QuantumEnv) : Prop := mkTableOk {
  table_keys : forall h i, state_to_index self !! h = Some i -> 0 <= h < 100;
  table_back : forall h i, state_to_index self !! h = Some i ->
    0 <= i /\ index_to_state self !! Z.to_nat i = Some h;
  table_forth : forall k h, index_to_state self !! k = Some h ->
    state_to_index self !! h = Some (Z.of_nat k);
  table_length : length (index_to_state self) = size (state_to_index self);
}.

(** The table only grows: old entries keep their index, old positions keep
    their bucket. *)
Definition extends (self self' : QuantumEnv) : Prop :=
  state_to_index self ⊆ state_to_index self' /\
  index_to_state self `prefix_of` index_to_state self'.

(** What every pass of the training loop keeps true. *)
Definition world_ok (w : World) : Prop :=
  agent_ok (agent w) /\ reachable (environment w).

End Reachability.

(** ** The reverse lookup *)

(** What ends a call of [get_state_from_index] early: one of the exceptions
    above, or the [AttributeError] of an attribute the receiver lacks. *)
Inductive raised : Type :=
| Raised (e : exn)
| AttributeError.

(** The values the program passes as the parameter [circuit] of
    [_hash_circuit], which has no type check of its own: a circuit, or a key
    of [state_to_index], an [int]. *)
Inductive receiver : Type :=
| Circuit (c : QuantumCircuit)
| Integer (z : Z).

(** [circuit.draw(output='text')]: the attribute [draw] is looked up on the
    value; an [int] has none. *)
Definition draw `{B : Backend} (circuit : receiver) : raised + string :=
  match circuit with
  | Circuit c => inr (draw_text c)
  | Integer _ => inl AttributeError
  end.

(** The body of [_hash_circuit] run on any such value. *)
Definition _hash_circuit_dyn `{B : Backend} (circuit : receiver) : raised + Z :=
  match draw circuit with
  | inl e => inl e
  | inr circuit_str =>
      let hash_int := Z.of_N (sha256_int circuit_str) in
      inr (hash_int mod 100)
  end.

(** The loop over [state_to_index.items()] returns at the first item whose
    value is [index], with the result of [self._hash_circuit(circuit_hash)]. *)
Definition get_state_from_index `{B : Backend} (self : QuantumEnv) (index : Z)
  : raised + option Z :=
  match py_getitem (index_to_state self) index with
  | Raise e => inl (Raised e)
  | Ok state_hash =>
      match List.find (fun item => item.2 =? index) (map_to_list (state_to_index self)) with
      | Some (circuit_hash, idx) =>
          match _hash_circuit_dyn (Integer circuit_hash) with
          | inl e => inl e
          | inr h => inr (Some h)
          end
      | None => inr None
      end
  end.

(** ** Episodes and the main block *)

(** [1 + 2 + ... + n] *)
Definition triangle (n : Z) : Z := n * (n + 1) / 2.

(** The lines [train_agent] prints after the inner loop of episode number
    [episode]. *)
Definition progress_lines (episode episode_reward : Z) : list string :=
  if (episode + 1) mod 100 =? 0 then [episode_line episode episode_reward] else [].

(** Has the circuit of the environment reached the fidelity threshold? *)
Definition solved `{B : Backend} (self : QuantumEnv) : bool :=
  Mag_gtb (fidelity_of self (target_unitary self)) 0.99.

(** A reward that converts to [float64], as the arithmetic of
    [update_q_table] asks of it: the program passes an [int], and one too
    large for a float raises [OverflowError], which is outside [exn]. *)
Definition fits_float64 (x : Q) : Prop :=
  (- inject_Z (2 ^ 1023) <= x /\ x <= inject_Z (2 ^ 1023))%Q.

(** Every row of the table has [cols] values. *)
Definition rectangular (cols : nat) (table : list (list Q)) : Prop :=
  Forall (fun row => length row = cols) table.

(** The main block: build the environment and the agent, train, evaluate. *)
Definition main `{B : Backend} (rs : RandomState) : result World :=
  let environment := QuantumEnv_init in
  agent ← QLearningAgent_init 100 14 0.05 0.95 0.9 0.99 0.01;
  w ← train_agent (mkWorld agent environment rs []) 100000 10000;
  test_agent w 100000 10000.

(** ** Concrete inputs *)

Module Sample.

(** A generator whose draws are all [d]. *)
Definition constant (d : N) : RandomState := mkRandomState (fun _ => d) 0.

(** A generator that alternates [0] (so [rand] returns 0) and [8]. *)
Definition always_8 : RandomState :=
  mkRandomState (fun k => if Nat.even k then 0%N else 8%N) 0.

Definition zeros : list (list Q) := replicate 100 (replicate 14 0%Q).

(** The agent of the main block, and the same agent with [epsilon] 1 and 0. *)
Definition learner : QLearningAgent := mkQLearningAgent 100 14 0.05 0.95 0.9 0.99 0.01 zeros.
Definition explorer : QLearningAgent := mkQLearningAgent 100 14 0.05 0.95 1 0.99 0.01 zeros.
Definition greedy : QLearningAgent := mkQLearningAgent 100 14 0.05 0.95 0 0.99 0.01 zeros.

(** An agent with negative exploration parameters. *)
Definition negative : QLearningAgent := mkQLearningAgent 100 14 0.05 0.95 (-1) 0.5 (-2) zeros.

Definition start (ag : QLearningAgent) (rs : RandomState) : World :=
  mkWorld ag QuantumEnv_init rs [].

(** The circuit of [n] X gates on qubit 0. *)
Definition x_circuit (n : nat) : QuantumCircuit :=
  mkCircuit 2 (replicate n (mkInstruction XGate [0%nat])).

(** What a test reads off a rollout: the episode reward, the number of gates
    of the final circuit and the cell [(i, j)] of the final Q-table. *)
Definition observe (i j : nat) (r : result (World * Z)) : result (Z * Z * option Q) :=
  '(w, episode_reward) ← r;
  Ok (episode_reward, size_of (circuit (environment w)),
      option_map Qred (cell (q_table (agent w)) i j)).

(** The world after ten passes of the training loop that each append an X
    gate on qubit 0. *)
Definition ten_gates : World :=
  match @train_rollout Reference.backend 10 0 (start explorer always_8) with
  | Ok (w, _) => w
  | Raise _ => start explorer always_8
  end.

(** The environment after one more such pass. *)
Definition eleven_gates_env : QuantumEnv :=
  match @step Reference.backend (environment ten_gates) (PyGate XGate) (PyList [PyInt 0]) with
  | Ok (env, _) => env
  | Raise _ => environment ten_gates
  end.

(** S on both qubits, H on 0, CX(0,1), CX(1,0), H on 1: six gates whose
    product is the iSWAP matrix. *)
Definition iswap_circuit : QuantumCircuit :=
  mkCircuit 2
    [ mkInstruction SGate [0%nat]; mkInstruction SGate [1%nat];
      mkInstruction HGate [0%nat]; mkInstruction CXGate [0%nat; 1%nat];
      mkInstruction CXGate [1%nat; 0%nat]; mkInstruction HGate [1%nat] ].

(** A generator that makes an always-exploring agent apply S(0), S(1),
    H(0), CX(0,1), CX(1,0), H(1), the six gates of [iswap_circuit]. *)
Definition iswap_draws : RandomState :=
  mkRandomState
    (fun k => if Nat.even k then 0%N else nth (Nat.div2 k) [4; 5; 0; 2; 3; 1]%N 0%N) 0.

(** The hundredth episode of a run, solved by those six gates. *)
Definition solved_episode : World :=
  match @train_episode Reference.backend 20 99 (start explorer iswap_draws) with
  | Ok w => w
  | Raise _ => start explorer iswap_draws
  end.

(** The same episode before the progress line and the decay. *)
Definition solved_rollout : World :=
  match @train_rollout Reference.backend 20 99 (start explorer iswap_draws) with
  | Ok (w, _) => w
  | Raise _ => start explorer iswap_draws
  end.

End Sample.

(** * Properties *)

(** ** Sequence indexing *)

Lemma bind_Ok {A C : Type} (m : result A) (k : A -> result C) (c : C) :
  m ≫= k = Ok c <-> exists a, m = Ok a /\ k a = Ok c.
Proof.
  destruct m as [a|e]; simpl; split.
  - intros Hk. exists a. split; [reflexivity | exact Hk].
  - intros (a' & Ha & Hk). inversion Ha. subst. exact Hk.
  - discriminate.
  - intros (a' & Ha & _). discriminate.
Qed.

Lemma py_index_Ok (n : nat) (i : Z) (k : nat) :
  py_index n i = Ok k ->
  (k < n)%nat /\ (Z.of_nat k = i \/ Z.of_nat k = i + Z.of_nat n).
Proof.
  unfold py_index.
  destruct (0 <=? i) eqn:H0, (i <? Z.of_nat n) eqn:H1; simpl;
    try destruct (- Z.of_nat n <=? i) eqn:H2; try destruct (i <? 0) eqn:H3; simpl;
    intros [= <-]; lia.
Qed.

Lemma py_index_nonneg (n : nat) (i : Z) :
  0 <= i < Z.of_nat n -> py_index n i = Ok (Z.to_nat i).
Proof.
  intros Hi. unfold py_index.
  destruct (0 <=? i) eqn:H0, (i <? Z.of_nat n) eqn:H1; simpl; try reflexivity; lia.
Qed.

Lemma py_getitem_Ok {A : Type} (l : list A) (i : Z) (x : A) :
  py_getitem l i = Ok x <-> exists k, py_index (length l) i = Ok k /\ l !! k = Some x.
Proof.
  unfold py_getitem. rewrite bind_Ok. split; intros (k & Hk & Hx); exists k; split; auto.
  - destruct (l !! k); [congruence | discriminate].
  - rewrite Hx. reflexivity.
Qed.

Lemma py_getitem_nonneg {A : Type} (l : list A) (i : Z) (x : A) :
  0 <= i -> l !! Z.to_nat i = Some x -> py_getitem l i = Ok x.
Proof.
  intros Hi Hx. apply py_getitem_Ok. exists (Z.to_nat i). split; [|exact Hx].
  apply py_index_nonneg. apply lookup_lt_Some in Hx. lia.
Qed.

(** ** Reductions and two-dimensional indexing *)

Lemma py_max_cases (a b : Q) :
  (py_max a b = a /\ (b <= a)%Q) \/ (py_max a b = b /\ (a < b)%Q).
Proof. unfold py_max. destruct (Qlt_le_dec a b); auto. Qed.

Lemma fold_py_max (xs : list Q) (x : Q) :
  is_max (x :: xs) (fold_left py_max xs x).
Proof.
  revert x. induction xs as [|y ys IH]; intros x; simpl.
  - split; [left|]. intros z Hz. apply list_elem_of_singleton in Hz. subst. apply Qle_refl.
  - destruct (IH (py_max x y)) as [Hin Hge].
    destruct (py_max_cases x y) as [[E Hle]|[E Hlt]]; rewrite E in *.
    + split.
      * apply elem_of_cons in Hin as [->|Hin]; [left | right; right; exact Hin].
      * intros z Hz. apply elem_of_cons in Hz as [->|Hz].
        -- apply Hge. left.
        -- apply elem_of_cons in Hz as [->|Hz].
           ++ apply Qle_trans with x; [exact Hle | apply Hge; left].
           ++ apply Hge. right. exact Hz.
    + split.
      * right. exact Hin.
      * intros z Hz. apply elem_of_cons in Hz as [->|Hz].
        -- apply Qle_trans with y; [apply Qlt_le_weak; exact Hlt | apply Hge; left].
        -- apply Hge. exact Hz.
Qed.

Lemma np_max_is_max (row : list Q) :
  row <> [] -> exists m, np_max row = Ok m /\ is_max row m.
Proof.
  destruct row as [|x xs]; [congruence|]. intros _.
  exists (fold_left py_max xs x). split; [reflexivity | apply fold_py_max].
Qed.

Lemma np_getitem2_Ok (table : list (list Q)) (i j : Z) (v : Q) :
  np_getitem2 table i j = Ok v <->
  exists r c row, py_index (length table) i = Ok r /\ table !! r = Some row /\
                  py_index (length row) j = Ok c /\ row !! c = Some v.
Proof.
  unfold np_getitem2. rewrite bind_Ok. split.
  - intros (row & Hrow & Hv). apply py_getitem_Ok in Hrow as (r & Hr & Hrow).
    apply py_getitem_Ok in Hv as (c & Hc & Hv). eauto 10.
  - intros (r & c & row & Hr & Hrow & Hc & Hv). exists row.
    split; apply py_getitem_Ok; eauto.
Qed.

Lemma np_setitem2_Ok (table : list (list Q)) (i j : Z) (v old : Q) :
  np_getitem2 table i j = Ok old ->
  exists r c row, py_index (length table) i = Ok r /\ table !! r = Some row /\
                  py_index (length row) j = Ok c /\
                  np_setitem2 table i j v = Ok (<[r := <[c := v]> row]> table).
Proof.
  intros (r & c & row & Hr & Hrow & Hc & Hv)%np_getitem2_Ok.
  exists r, c, row. repeat split; auto.
  unfold np_setitem2.
  assert (py_getitem table i = Ok row) as -> by (apply py_getitem_Ok; eauto).
  simpl. rewrite Hr. simpl. rewrite Hc. reflexivity.
Qed.

(** ** The sign test and the magnitudes against the real numbers *)

Section RealReading.
Local Open Scope R_scope.

Lemma sqrt2_sqr : sqrt 2 * sqrt 2 = 2.
Proof. apply sqrt_sqrt. lra. Qed.

Lemma sqrt2_pos : 0 < sqrt 2.
Proof. apply sqrt_lt_R0. lra. Qed.

Lemma Q2R_Qred (q : Q) : Q2R (Qred q) = Q2R q.
Proof. apply Qeq_eqR, Qred_correct. Qed.

Lemma Qs2_to_R_of_Q (q : Q) : Qs2_to_R (Qs2_of_Q q) = Q2R q.
Proof. unfold Qs2_to_R, Qs2_of_Q. simpl. rewrite Q2R_Qred, RMicromega.Q2R_0. lra. Qed.

Lemma Qs2_to_R_add (x y : Qsqrt2) : Qs2_to_R (Qs2_add x y) = Qs2_to_R x + Qs2_to_R y.
Proof. unfold Qs2_to_R, Qs2_add. simpl. rewrite !Q2R_Qred, !Q2R_plus. lra. Qed.

Lemma Qs2_to_R_opp (x : Qsqrt2) : Qs2_to_R (Qs2_opp x) = - Qs2_to_R x.
Proof. unfold Qs2_to_R, Qs2_opp. simpl. rewrite !Q2R_Qred, !Q2R_opp. lra. Qed.

Lemma Qs2_to_R_sub (x y : Qsqrt2) : Qs2_to_R (Qs2_sub x y) = Qs2_to_R x - Qs2_to_R y.
Proof. unfold Qs2_sub. rewrite Qs2_to_R_add, Qs2_to_R_opp. lra. Qed.

Lemma Qs2_to_R_mul (x y : Qsqrt2) : Qs2_to_R (Qs2_mul x y) = Qs2_to_R x * Qs2_to_R y.
Proof.
  unfold Qs2_to_R, Qs2_mul. simpl.
  rewrite !Q2R_Qred, !Q2R_plus, !Q2R_mult.
  replace (Q2R 2) with 2 by (unfold Q2R; simpl; lra).
  pose proof sqrt2_sqr as Hs. set (s := sqrt 2) in *.
  set (a := Q2R (rat_part x)). set (b := Q2R (root_part x)).
  set (c := Q2R (rat_part y)). set (d := Q2R (root_part y)).
  replace ((a + b * s) * (c + d * s)) with (a * c + (a * d + b * c) * s + b * d * (s * s)) by ring.
  rewrite Hs. ring.
Qed.

Lemma Qs2_to_R_scale (q : Q) (x : Qsqrt2) : Qs2_to_R (Qs2_scale q x) = Q2R q * Qs2_to_R x.
Proof. unfold Qs2_to_R, Qs2_scale. simpl. rewrite !Q2R_Qred, !Q2R_mult. lra. Qed.

Lemma sqr_le_mono (a b : R) : 0 <= a <= b -> a * a <= b * b.
Proof. intros [Ha Hab]. apply Rmult_le_compat; lra. Qed.

Lemma sqr_lt_mono (a b : R) : 0 <= a < b -> a * a < b * b.
Proof. intros [Ha Hab]. apply Rmult_le_0_lt_compat; lra. Qed.

Lemma root_term_sqr (r : R) : (r * sqrt 2) * (r * sqrt 2) = 2 * (r * r).
Proof.
  replace (r * sqrt 2 * (r * sqrt 2)) with (r * r * (sqrt 2 * sqrt 2)) by ring.
  rewrite sqrt2_sqr. ring.
Qed.

(** With [p > 0 > r]: [p + r sqrt 2 > 0] exactly when [2 r^2 < p^2]. *)
Lemma mixed_sign_pos (p r : R) :
  0 < p -> r < 0 -> (0 < p + r * sqrt 2 <-> 2 * (r * r) < p * p).
Proof.
  intros Hp Hr. pose proof sqrt2_pos as Hs. pose proof (root_term_sqr (- r)) as Hsq.
  assert (0 < - r * sqrt 2) as Ht by (apply Rmult_lt_0_compat; lra).
  set (t := - r * sqrt 2) in *.
  replace (r * sqrt 2) with (- t) by (unfold t; ring).
  replace (2 * (r * r)) with (t * t) by (rewrite Hsq; ring).
  split; intros H.
  - apply sqr_lt_mono. lra.
  - destruct (Rlt_le_dec 0 (p + - t)) as [?|Hneg]; [assumption|].
    exfalso. assert (p * p <= t * t) by (apply sqr_le_mono; lra). lra.
Qed.

(** With [p < 0 < r]: [p + r sqrt 2 > 0] exactly when [p^2 < 2 r^2]. *)
Lemma mixed_sign_neg (p r : R) :
  p < 0 -> 0 < r -> (0 < p + r * sqrt 2 <-> p * p < 2 * (r * r)).
Proof.
  intros Hp Hr. pose proof sqrt2_pos as Hs. pose proof (root_term_sqr r) as Hsq.
  assert (0 < r * sqrt 2) as Ht by (apply Rmult_lt_0_compat; lra).
  set (t := r * sqrt 2) in *.
  replace (2 * (r * r)) with (t * t) by (rewrite Hsq; ring).
  replace (p * p) with ((- p) * (- p)) by ring.
  split; intros H.
  - apply sqr_lt_mono. lra.
  - destruct (Rlt_le_dec 0 (p + t)) as [?|Hneg]; [assumption|].
    exfalso. assert (t * t <= (- p) * (- p)) by (apply sqr_le_mono; lra). lra.
Qed.

Lemma Q2R_2 : Q2R 2 = 2.
Proof. unfold Q2R. simpl. lra. Qed.

Lemma Qs2_pos_spec (x : Qsqrt2) : Qs2_pos x = true <-> 0 < Qs2_to_R x.
Proof.
  unfold Qs2_pos, Qs2_to_R. destruct x as [p r]. simpl.
  pose proof sqrt2_pos as Hs.
  destruct (Qcompare_spec 0 p) as [Ep|Lp|Gp], (Qcompare_spec 0 r) as [Er|Lr|Gr];
    try (apply Qeq_eqR in Ep; rewrite RMicromega.Q2R_0 in Ep);
    try (apply Qeq_eqR in Er; rewrite RMicromega.Q2R_0 in Er);
    try (apply Qlt_Rlt in Lp; rewrite RMicromega.Q2R_0 in Lp);
    try (apply Qlt_Rlt in Lr; rewrite RMicromega.Q2R_0 in Lr);
    try (apply Qlt_Rlt in Gp; rewrite RMicromega.Q2R_0 in Gp);
    try (apply Qlt_Rlt in Gr; rewrite RMicromega.Q2R_0 in Gr).
  - split; [discriminate | rewrite <- Ep, <- Er; lra].
  - split; [intros _ | reflexivity]. rewrite <- Ep.
    assert (0 < Q2R r * sqrt 2) by (apply Rmult_lt_0_compat; lra). lra.
  - split; [discriminate | intros H; exfalso]. rewrite <- Ep in H.
    assert (0 < - Q2R r * sqrt 2) by (apply Rmult_lt_0_compat; lra). lra.
  - split; [intros _ | reflexivity]. rewrite <- Er. lra.
  - split; [intros _ | reflexivity].
    assert (0 < Q2R r * sqrt 2) by (apply Rmult_lt_0_compat; lra). lra.
  - rewrite (mixed_sign_pos _ _ Lp Gr).
    destruct (Qlt_le_dec (2 * (r * r)) (p * p)) as [Hlt|Hle].
    + apply Qlt_Rlt in Hlt. rewrite !Q2R_mult, Q2R_2 in Hlt. tauto.
    + apply Qle_Rle in Hle. rewrite !Q2R_mult, Q2R_2 in Hle.
      split; [discriminate | lra].
  - split; [discriminate | rewrite <- Er; lra].
  - rewrite (mixed_sign_neg _ _ Gp Lr).
    destruct (Qlt_le_dec (p * p) (2 * (r * r))) as [Hlt|Hle].
    + apply Qlt_Rlt in Hlt. rewrite !Q2R_mult, Q2R_2 in Hlt. tauto.
    + apply Qle_Rle in Hle. rewrite !Q2R_mult, Q2R_2 in Hle.
      split; [discriminate | lra].
  - split; [discriminate | intros H; exfalso].
    assert (0 < - Q2R r * sqrt 2) by (apply Rmult_lt_0_compat; lra). lra.
Qed.

Lemma Qs2_ltb_spec (x y : Qsqrt2) : Qs2_ltb x y = true <-> Qs2_to_R x < Qs2_to_R y.
Proof. unfold Qs2_ltb. rewrite Qs2_pos_spec, Qs2_to_R_sub. lra. Qed.

Lemma np_abs_spec (z : Complex) : Mag_to_R (np_abs z) = Cmod_R z.
Proof.
  unfold Mag_to_R, np_abs, Cmod_R. simpl.
  rewrite Qs2_to_R_add, !Qs2_to_R_mul. reflexivity.
Qed.

Lemma Mag_div_spec (m : Magnitude) (k : Z) :
  (0 < k)%Z -> Mag_to_R (Mag_div m k) = Mag_to_R m / IZR k.
Proof.
  intros Hk. unfold Mag_to_R, Mag_div. simpl. rewrite Qs2_to_R_scale.
  assert (0 < IZR k) as HkR by (apply IZR_lt; exact Hk).
  assert (Q2R (/ (inject_Z k * inject_Z k)) = / (IZR k * IZR k)) as ->.
  { rewrite Q2R_inv.
    - rewrite Q2R_mult. unfold Q2R, inject_Z. simpl. rewrite Rinv_1, Rmult_1_r. reflexivity.
    - intros E. apply Qeq_eqR in E. rewrite Q2R_mult, RMicromega.Q2R_0 in E.
      unfold Q2R, inject_Z in E. simpl in E. nra. }
  set (x := Qs2_to_R (squared m)).
  destruct (Rle_lt_dec 0 x) as [Hx|Hx].
  - replace (/ (IZR k * IZR k) * x) with (x / (IZR k * IZR k)) by (unfold Rdiv; ring).
    rewrite sqrt_div_alt by nra. rewrite sqrt_square by lra. reflexivity.
  - rewrite (sqrt_neg_0 x) by lra. rewrite sqrt_neg_0; [unfold Rdiv; ring|].
    assert (0 < / (IZR k * IZR k)) by (apply Rinv_0_lt_compat; nra). nra.
Qed.

Lemma Mag_gtb_spec (m : Magnitude) (q : Q) : Mag_gtb m q = true <-> Q2R q < Mag_to_R m.
Proof.
  unfold Mag_gtb, Mag_to_R.
  pose proof (sqrt_pos (Qs2_to_R (squared m))) as Hs.
  destruct (Qlt_le_dec q 0) as [Hq|Hq].
  - apply Qlt_Rlt in Hq. rewrite RMicromega.Q2R_0 in Hq. split; [intros _; lra | reflexivity].
  - apply Qle_Rle in Hq. rewrite RMicromega.Q2R_0 in Hq.
    rewrite Qs2_ltb_spec, Qs2_to_R_of_Q, Q2R_mult.
    set (x := Qs2_to_R (squared m)) in *.
    destruct (Rle_lt_dec 0 x) as [Hx|Hx].
    + pose proof (sqrt_sqrt x Hx) as Hxx. split; intros H.
      * destruct (Rlt_le_dec (Q2R q) (sqrt x)) as [?|Hle]; [assumption | exfalso; nra].
      * nra.
    + rewrite (sqrt_neg_0 x) in * by lra. split; intros H; exfalso; nra.
Qed.

End RealReading.

(** ** The agent *)

(** C1. [update_q_table] stores
    [Q[s,a] + alpha * (reward + gamma * max Q[s'] - Q[s,a])] in the cell
    [(s, a)] and leaves every other cell and every other field alone; on an
    all-zero table the stored value is [alpha * reward]. *)
Theorem update_q_table_bellman (self : QLearningAgent) (s a : Z) (reward : Q) (s' : Z)
    (old : Q) (next_row : list Q) :
  np_getitem2 (q_table self) s a = Ok old ->
  py_getitem (q_table self) s' = Ok next_row ->
  next_row <> [] ->
  exists (table : list (list Q)) (best new : Q) (r c : nat) (row : list Q),
    update_q_table self s a reward s' = Ok (with_q_table self table) /\
    is_max next_row best /\
    py_index (length (q_table self)) s = Ok r /\
    q_table self !! r = Some row /\
    py_index (length row) a = Ok c /\
    cell table r c = Some new /\
    (new == old + alpha self * (reward + gamma self * best - old))%Q /\
    (all_zero (q_table self) -> (new == alpha self * reward)%Q) /\
    (forall i j, (i, j) <> (r, c) -> cell table i j = cell (q_table self) i j).
Proof.
  intros Hold Hnext Hne.
  destruct (np_max_is_max next_row Hne) as (best & Hbest & Hmax).
  set (new := (old + alpha self * (reward + gamma self * best - old))%Q).
  destruct (np_setitem2_Ok _ _ _ new _ Hold) as (r & c & row & Hr & Hrow & Hc & Hset).
  exists (<[r := <[c := new]> row]> (q_table self)), best, new, r, c, row.
  pose proof (py_index_Ok _ _ _ Hr) as [Hrlt _].
  pose proof (py_index_Ok _ _ _ Hc) as [Hclt _].
  split_and!; try assumption.
  - unfold update_q_table. rewrite Hold. simpl. rewrite Hnext. simpl. rewrite Hbest. simpl.
    fold new. rewrite Hset. reflexivity.
  - unfold cell. rewrite list_lookup_insert_eq by exact Hrlt. simpl.
    apply list_lookup_insert_eq. exact Hclt.
  - reflexivity.
  - intros Hzero.
    assert (old == 0)%Q as Hold0.
    { apply np_getitem2_Ok in Hold as (r0 & c0 & row0 & _ & Hrow0 & _ & Hv).
      eapply Forall_lookup_1 in Hzero; [|exact Hrow0].
      eapply Forall_lookup_1 in Hzero; [|exact Hv]. exact Hzero. }
    assert (best == 0)%Q as Hbest0.
    { apply py_getitem_Ok in Hnext as (k & _ & Hk).
      eapply Forall_lookup_1 in Hzero; [|exact Hk].
      destruct Hmax as [Hin _]. rewrite Forall_forall in Hzero. apply Hzero. exact Hin. }
    unfold new. rewrite Hold0, Hbest0. ring.
  - intros i j Hij. unfold cell.
    destruct (decide (i = r)) as [->|Hi].
    + rewrite list_lookup_insert_eq by exact Hrlt. rewrite Hrow. simpl.
      apply list_lookup_insert_ne. congruence.
    + rewrite list_lookup_insert_ne by congruence. reflexivity.
Qed.

Lemma update_q_table_bellman_witness :
  exists table : list (list Q),
    update_q_table Sample.learner 0 0 (-5)%Q 1 = Ok (with_q_table Sample.learner table) /\
    option_map Qred (cell table 0 0) = Some (-1 # 4)%Q.
Proof.
  destruct (update_q_table_bellman Sample.learner 0 0 (-5)%Q 1 0%Q (replicate 14 0%Q))
    as (table & best & new & r & c & row & Hup & _);
    [reflexivity | reflexivity | discriminate |].
  exists table. split; [exact Hup|].
  vm_compute in Hup. injection Hup as <-. reflexivity.
Defined.

Lemma rand_range (rs : RandomState) : (0 <= (rand rs).1 /\ (rand rs).1 < 1)%Q.
Proof.
  unfold rand. simpl.
  pose proof (Z.mod_pos_bound (Z.of_N (draws rs (cursor rs))) (2 ^ 53) eq_refl) as [Hlo Hhi].
  set (k := Z.of_N (draws rs (cursor rs)) mod 2 ^ 53) in *.
  unfold Qdiv, Qle, Qlt, Qmult, Qinv, inject_Z. simpl. lia.
Qed.

Lemma argmax_from_spec (l pre : list Q) (best_i : nat) (best : Q) :
  pre !! best_i = Some best ->
  (forall x, x ∈ pre -> (x <= best)%Q) ->
  (forall j y, (j < best_i)%nat -> pre !! j = Some y -> (y < best)%Q) ->
  exists m,
    (pre ++ l) !! argmax_from best_i best (length pre) l = Some m /\
    (forall x, x ∈ pre ++ l -> (x <= m)%Q) /\
    (forall j y, (j < argmax_from best_i best (length pre) l)%nat ->
                 (pre ++ l) !! j = Some y -> (y < m)%Q).
Proof.
  revert pre best_i best. induction l as [|x xs IH]; intros pre best_i best Hbest Hge Hlt; simpl.
  - rewrite app_nil_r. exists best. auto.
  - replace (pre ++ x :: xs) with ((pre ++ [x]) ++ xs) by (rewrite <- app_assoc; reflexivity).
    replace (S (length pre)) with (length (pre ++ [x])) by (rewrite length_app; simpl; lia).
    destruct (Qlt_le_dec best x) as [Hx|Hx].
    + apply IH.
      * rewrite lookup_app_r by lia. rewrite Nat.sub_diag. reflexivity.
      * intros z Hz. apply elem_of_app in Hz as [Hz|Hz].
        -- apply Qle_trans with best; [apply Hge; exact Hz | apply Qlt_le_weak; exact Hx].
        -- apply list_elem_of_singleton in Hz. subst. apply Qle_refl.
      * intros j y Hj Hy. rewrite lookup_app_l in Hy by exact Hj.
        apply Qle_lt_trans with best; [|exact Hx]. apply Hge.
        apply list_elem_of_lookup. eauto.
    + apply IH.
      * apply lookup_app_l_Some. exact Hbest.
      * intros z Hz. apply elem_of_app in Hz as [Hz|Hz].
        -- apply Hge. exact Hz.
        -- apply list_elem_of_singleton in Hz. subst. exact Hx.
      * intros j y Hj Hy. apply lookup_lt_Some in Hbest as Hlen.
        rewrite lookup_app_l in Hy by lia. eapply Hlt; eauto.
Qed.

Lemma np_argmax_spec (row : list Q) :
  row <> [] ->
  exists (a : nat) (m : Q),
    np_argmax row = Ok (Z.of_nat a) /\ row !! a = Some m /\
    (forall x, x ∈ row -> (x <= m)%Q) /\
    (forall j y, (j < a)%nat -> row !! j = Some y -> (y < m)%Q).
Proof.
  destruct row as [|x xs]; [congruence|]. intros _.
  destruct (argmax_from_spec xs [x] 0 x) as (m & Hm & Hge & Hlt).
  - reflexivity.
  - intros z Hz. apply list_elem_of_singleton in Hz. subst. apply Qle_refl.
  - intros j y Hj. lia.
  - exists (argmax_from 0 x 1 xs), m. simpl in *. auto.
Qed.

(** C5. With [epsilon = 0] the draw of [rand] is never below [epsilon], so
    [choose_action] returns the first index that holds the maximum of the
    row, and the catalogue entry at that index. *)
Theorem choose_action_greedy (self : QLearningAgent) (rs : RandomState)
    (state_index : Z) (row : list Q) :
  (epsilon self == 0)%Q ->
  py_getitem (q_table self) state_index = Ok row ->
  (0 < length row <= 14)%nat ->
  exists (a : nat) (m : Q) (chosen : pyobj),
    choose_action self rs state_index = Ok (chosen, Z.of_nat a, (rand rs).2) /\
    row !! a = Some m /\
    (forall x, x ∈ row -> (x <= m)%Q) /\
    (forall j y, (j < a)%nat -> row !! j = Some y -> (y < m)%Q) /\
    possible_actions !! a = Some chosen.
Proof.
  intros Heps Hrow [Hpos Hlen].
  destruct (np_argmax_spec row) as (a & m & Harg & Hm & Hge & Hlt).
  { intros ->. simpl in Hpos. lia. }
  assert (a < 14)%nat as Ha by (apply lookup_lt_Some in Hm; lia).
  destruct (possible_actions !! a) as [chosen|] eqn:Hchosen.
  2: { apply lookup_ge_None in Hchosen. simpl in Hchosen. lia. }
  exists a, m, chosen. split_and!; auto.
  unfold choose_action. destruct (rand rs) as [r rs'] eqn:Hrand. simpl.
  pose proof (rand_range rs) as [Hr0 _]. rewrite Hrand in Hr0. simpl in Hr0.
  destruct (Qlt_le_dec r (epsilon self)) as [Hlt'|_].
  { exfalso. rewrite Heps in Hlt'. apply (Qlt_not_le _ _ Hlt'). exact Hr0. }
  rewrite Hrow. simpl. rewrite Harg. simpl.
  rewrite (py_getitem_nonneg possible_actions (Z.of_nat a) chosen); [reflexivity | lia |].
  rewrite Nat2Z.id. exact Hchosen.
Qed.

Lemma choose_action_greedy_witness :
  exists (a : nat) (chosen : pyobj),
    choose_action Sample.greedy (Sample.constant 5) 3
    = Ok (chosen, Z.of_nat a, (rand (Sample.constant 5)).2) /\
    possible_actions !! a = Some chosen.
Proof.
  destruct (choose_action_greedy Sample.greedy (Sample.constant 5) 3 (replicate 14 0%Q))
    as (a & m & chosen & Hc & _ & _ & _ & Hp); [reflexivity | reflexivity | simpl; lia |].
  exists a, chosen. split; [exact Hc | exact Hp].
Defined.

Example choose_action_zero_table :
  choose_action Sample.greedy (Sample.constant 5) 3
  = Ok (catalog_entry HGate [0], 0, (rand (Sample.constant 5)).2).
Proof. vm_compute. reflexivity. Qed.

(** ** Exploration decay *)

Lemma py_max_Qmax (a b : Q) : py_max a b = Qmax a b.
Proof.
  unfold py_max, Qmax, GenericMinMax.gmax.
  destruct (Qlt_le_dec a b) as [H|H].
  - rewrite Qlt_alt in H. rewrite H. reflexivity.
  - destruct (a ?= b)%Q eqn:E; try reflexivity.
    exfalso. rewrite <- Qlt_alt in E. apply (Qlt_not_le _ _ E). exact H.
Qed.

Lemma py_max_lower (a b : Q) : (a <= py_max a b)%Q.
Proof. destruct (py_max_cases a b) as [[-> _]|[-> H]]; [apply Qle_refl | apply Qlt_le_weak, H]. Qed.

Lemma decayed_parameters (n : nat) (self : QLearningAgent) :
  epsilon_min (decayed n self) = epsilon_min self /\
  decay_rate (decayed n self) = decay_rate self /\
  q_table (decayed n self) = q_table self.
Proof. induction n as [|n IH]; simpl; [auto | exact IH]. Qed.

Lemma decay_step_bounds (self : QLearningAgent) :
  (epsilon_min self <= epsilon self)%Q -> (0 <= epsilon self)%Q ->
  (0 < decay_rate self)%Q -> (decay_rate self <= 1)%Q ->
  (epsilon_min self <= epsilon (decay_exploration self))%Q /\
  (0 <= epsilon (decay_exploration self))%Q /\
  (epsilon (decay_exploration self) <= epsilon self)%Q.
Proof.
  intros Hmin H0 Hd0 Hd1. simpl.
  assert (epsilon self * decay_rate self <= epsilon self)%Q as Hmul.
  { rewrite <- (Qmult_1_r (epsilon self)) at 2. rewrite !(Qmult_comm (epsilon self)).
    apply Qmult_le_compat_r; assumption. }
  assert (0 <= epsilon self * decay_rate self)%Q as Hpos.
  { apply Qmult_le_0_compat; [assumption | apply Qlt_le_weak; assumption]. }
  destruct (py_max_cases (epsilon_min self) (epsilon self * decay_rate self))
    as [[-> Hle]|[-> Hlt]].
  - split_and!; [apply Qle_refl | | assumption].
    apply Qle_trans with (epsilon self * decay_rate self)%Q; assumption.
  - split_and!; [apply Qlt_le_weak; assumption | assumption | assumption].
Qed.

(** C6 (amended). For every current value of epsilon, and at every later
    call too, [decay_exploration] stores
    [max(epsilon_min, epsilon * decay_rate)], which is never below
    [epsilon_min]; when moreover [epsilon >= epsilon_min], [epsilon >= 0] and
    [0 < decay_rate <= 1], epsilon is never below [epsilon_min] and never
    increases from one call to the next. *)
Theorem decay_exploration_monotone (self : QLearningAgent) (n : nat) :
  epsilon (decay_exploration self)
    = Qmax (epsilon_min self) (epsilon self * decay_rate self) /\
  epsilon (decayed (S n) self)
    = Qmax (epsilon_min self) (epsilon (decayed n self) * decay_rate self) /\
  (epsilon_min self <= epsilon (decay_exploration self))%Q /\
  ((epsilon_min self <= epsilon self)%Q -> (0 <= epsilon self)%Q ->
   (0 < decay_rate self)%Q -> (decay_rate self <= 1)%Q ->
   (epsilon_min self <= epsilon (decayed n self))%Q /\
   (epsilon (decayed (S n) self) <= epsilon (decayed n self))%Q).
Proof.
  split; [simpl; apply py_max_Qmax|].
  split.
  { destruct (decayed_parameters n self) as (Em & Ed & _).
    change (decayed (S n) self) with (decay_exploration (decayed n self)).
    simpl. rewrite Em, Ed. apply py_max_Qmax. }
  split; [simpl; apply py_max_lower|].
  intros Hmin H0 Hd0 Hd1.
  assert (epsilon_min self <= epsilon (decayed n self) /\ 0 <= epsilon (decayed n self))%Q
    as [Hn Hn0].
  { induction n as [|n [IH IH0]]; [split; assumption|].
    destruct (decayed_parameters n self) as (Em & Ed & _).
    destruct (decay_step_bounds (decayed n self)) as (H1 & H2 & _);
      rewrite ?Em, ?Ed; try assumption.
    rewrite Em in H1. split; assumption. }
  split; [exact Hn|].
  destruct (decayed_parameters n self) as (Em & Ed & _).
  destruct (decay_step_bounds (decayed n self)) as (_ & _ & H3);
    rewrite ?Em, ?Ed; try assumption.
Qed.

Lemma decay_exploration_monotone_witness :
  (epsilon_min Sample.learner <= epsilon (decayed 3 Sample.learner))%Q /\
  (epsilon (decayed 4 Sample.learner) <= epsilon (decayed 3 Sample.learner))%Q.
Proof.
  destruct (decay_exploration_monotone Sample.learner 3) as (_ & _ & _ & H).
  apply H; vm_compute; congruence.
Defined.

(** C6, the claim as stated fails: with [epsilon = -1], [epsilon_min = -2]
    and [decay_rate = 1/2] the hypotheses of the claim hold and one call
    raises epsilon to [-1/2]. *)
Lemma decay_exploration_raises_negative_epsilon :
  (epsilon_min Sample.negative <= epsilon Sample.negative)%Q /\
  (0 < decay_rate Sample.negative)%Q /\
  (decay_rate Sample.negative <= 1)%Q /\
  Qred (epsilon (decay_exploration Sample.negative)) = (-1 # 2)%Q /\
  (epsilon Sample.negative < epsilon (decay_exploration Sample.negative))%Q.
Proof. split_and!; vm_compute; congruence. Qed.

(** [decay_exploration] never leaves epsilon below [epsilon_min], whatever
    the parameters. *)
Lemma decay_exploration_floor (self : QLearningAgent) :
  (epsilon (decay_exploration self) < epsilon_min self)%Q -> False.
Proof. simpl. intros H. apply (Qlt_not_le _ _ H). apply py_max_lower. Qed.

(** ** The environment and its State Index Table *)

Section EnvironmentProperties.
Context {B : Backend}.

Lemma hash_circuit_range (c : QuantumCircuit) : 0 <= _hash_circuit c < 100.
Proof. unfold _hash_circuit. apply Z.mod_pos_bound. lia. Qed.

Lemma get_state_index_hit (self : QuantumEnv) (state : QuantumCircuit) (i : Z) :
  state_to_index self !! _hash_circuit state = Some i ->
  get_state_index self state = (self, i).
Proof. intros H. unfold get_state_index. rewrite H. reflexivity. Qed.

Lemma get_state_index_miss (self : QuantumEnv) (state : QuantumCircuit) :
  state_to_index self !! _hash_circuit state = None ->
  get_state_index self state =
    (mkQuantumEnv (num_qubits self) (circuit self) (target_unitary self)
       (<[_hash_circuit state := Z.of_nat (size (state_to_index self))]> (state_to_index self))
       (index_to_state self ++ [_hash_circuit state]),
     Z.of_nat (size (state_to_index self))).
Proof. intros H. unfold get_state_index. rewrite H. reflexivity. Qed.

(** After a call the bucket of the circuit is in the table, under the index
    that was returned. *)
Lemma get_state_index_stored (self : QuantumEnv) (state : QuantumCircuit) :
  state_to_index (get_state_index self state).1 !! _hash_circuit state
  = Some (get_state_index self state).2.
Proof.
  destruct (state_to_index self !! _hash_circuit state) as [i|] eqn:E.
  - rewrite (get_state_index_hit _ _ _ E). exact E.
  - rewrite (get_state_index_miss _ _ E). simpl. apply lookup_insert_eq.
Qed.

Lemma get_state_index_frame (self : QuantumEnv) (state : QuantumCircuit) :
  circuit (get_state_index self state).1 = circuit self /\
  num_qubits (get_state_index self state).1 = num_qubits self /\
  target_unitary (get_state_index self state).1 = target_unitary self.
Proof.
  unfold get_state_index. destruct (state_to_index self !! _hash_circuit state); simpl; auto.
Qed.

Lemma extends_refl (self : QuantumEnv) : extends self self.
Proof. split; reflexivity. Qed.

Lemma extends_trans (e1 e2 e3 : QuantumEnv) : extends e1 e2 -> extends e2 e3 -> extends e1 e3.
Proof. intros [? ?] [? ?]. split; etransitivity; eauto. Qed.

Lemma get_state_index_extends (self : QuantumEnv) (state : QuantumCircuit) :
  extends self (get_state_index self state).1.
Proof.
  destruct (state_to_index self !! _hash_circuit state) as [i|] eqn:E.
  - rewrite (get_state_index_hit _ _ _ E). apply extends_refl.
  - rewrite (get_state_index_miss _ _ E). split; simpl.
    + apply insert_subseteq. exact E.
    + apply prefix_app_r. reflexivity.
Qed.

Lemma reset_extends (self : QuantumEnv) : extends self (reset self).1.
Proof.
  unfold reset.
  apply (get_state_index_extends
           (with_circuit self (QuantumCircuit_new (num_qubits self)))).
Qed.

Lemma step_Ok (self : QuantumEnv) (action qubits : pyobj) (self' : QuantumEnv)
    (state_index reward : Z) (done : bool) :
  step self action qubits = Ok (self', (state_index, reward, done)) ->
  exists c,
    append (circuit self) action qubits = Ok c /\
    self' = (get_state_index (with_circuit self c) c).1 /\
    state_index = (get_state_index (with_circuit self c) c).2 /\
    (reward, done) = _reward self' (target_unitary self').
Proof.
  unfold step. intros H. apply bind_Ok in H as (c & Hc & H). exists c.
  simpl in H.
  destruct (get_state_index (with_circuit self c) c) as [self1 i] eqn:E1.
  destruct (_reward self1 (target_unitary self1)) as [r d] eqn:E2.
  injection H as <- <- <- <-. simpl. rewrite E2. auto.
Qed.

Lemma step_extends (self : QuantumEnv) (action qubits : pyobj) (self' : QuantumEnv)
    (out : Z * Z * bool) :
  step self action qubits = Ok (self', out) -> extends self self'.
Proof.
  destruct out as [[i r] d]. intros (c & _ & -> & _)%step_Ok.
  apply (get_state_index_extends (with_circuit self c)).
Qed.

(** *** The invariant of the State Index Table *)

Lemma table_ok_init : table_ok QuantumEnv_init.
Proof.
  split; simpl.
  - intros h i H. rewrite lookup_empty in H. discriminate.
  - intros h i H. rewrite lookup_empty in H. discriminate.
  - intros k h H. rewrite lookup_nil in H. discriminate.
  - rewrite map_size_empty. reflexivity.
Qed.

Lemma table_ok_with_circuit (self : QuantumEnv) (c : QuantumCircuit) :
  table_ok self -> table_ok (with_circuit self c).
Proof. intros [H1 H2 H3 H4]. split; assumption. Qed.

Lemma table_ok_get_state_index (self : QuantumEnv) (state : QuantumCircuit) :
  table_ok self -> table_ok (get_state_index self state).1.
Proof.
  intros [Hkeys Hback Hforth Hlen].
  destruct (state_to_index self !! _hash_circuit state) as [i|] eqn:E.
  { rewrite (get_state_index_hit _ _ _ E). split; assumption. }
  rewrite (get_state_index_miss _ _ E). set (h := _hash_circuit state) in *.
  split; simpl.
  - intros h' i H. destruct (decide (h = h')) as [<-|Hne].
    + apply hash_circuit_range.
    + rewrite lookup_insert_ne in H by exact Hne. eapply Hkeys; eauto.
  - intros h' i H. destruct (decide (h = h')) as [<-|Hne].
    + rewrite lookup_insert_eq in H. injection H as <-. split; [lia|].
      rewrite Nat2Z.id, <- Hlen. rewrite lookup_app_r by lia.
      rewrite Nat.sub_diag. reflexivity.
    + rewrite lookup_insert_ne in H by exact Hne.
      destruct (Hback _ _ H) as [H0 Hl]. split; [exact H0|].
      apply lookup_app_l_Some. exact Hl.
  - intros k h' H. apply lookup_app_Some in H as [H|[Hk H]].
    + assert (h <> h') as Hne.
      { intros <-. apply Hforth in H. congruence. }
      rewrite lookup_insert_ne by exact Hne. apply Hforth. exact H.
    + destruct (k - length (index_to_state self))%nat as [|k'] eqn:Ek; simpl in H.
      2: { rewrite lookup_nil in H. discriminate. }
      injection H as <-. rewrite lookup_insert_eq. f_equal. lia.
  - rewrite length_app. simpl. rewrite map_size_insert_None by exact E. lia.
Qed.

Lemma reachable_table_ok (self : QuantumEnv) : reachable self -> table_ok self.
Proof.
  induction 1 as [|self _ IH|self state _ IH|self action qubits self' out _ IH Hstep].
  - apply table_ok_init.
  - unfold reset. apply table_ok_get_state_index, table_ok_with_circuit, IH.
  - apply table_ok_get_state_index, IH.
  - destruct out as [[i r] d]. apply step_Ok in Hstep as (c & _ & -> & _).
    apply table_ok_get_state_index, table_ok_with_circuit, IH.
Qed.

(** A map whose keys are all bucket ids has at most 100 entries. *)
Lemma bucket_keys_size (m : gmap Z Z) :
  (forall h i, m !! h = Some i -> 0 <= h < 100) -> (size m <= 100)%nat.
Proof.
  intros Hkeys.
  assert (dom m ⊆ (list_to_set (seqZ 0 100) : gset Z)) as Hsub.
  { intros h Hh. apply elem_of_dom in Hh as [i Hi].
    apply elem_of_list_to_set, elem_of_seqZ. apply Hkeys in Hi. lia. }
  apply subseteq_size in Hsub. rewrite size_dom in Hsub.
  rewrite size_list_to_set in Hsub by apply NoDup_seqZ.
  rewrite length_seqZ in Hsub. lia.
Qed.

Lemma table_ok_bounds (self : QuantumEnv) :
  table_ok self ->
  (length (index_to_state self) <= 100)%nat /\
  forall h i, state_to_index self !! h = Some i -> 0 <= i < 100.
Proof.
  intros [Hkeys Hback Hforth Hlen].
  pose proof (bucket_keys_size _ Hkeys) as Hsize.
  split; [lia|]. intros h i H. destruct (Hback _ _ H) as [H0 Hl].
  apply lookup_lt_Some in Hl. lia.
Qed.

Lemma get_state_index_range (self : QuantumEnv) (state : QuantumCircuit) :
  table_ok self -> 0 <= (get_state_index self state).2 < 100.
Proof.
  intros Hok.
  destruct (table_ok_bounds _ (table_ok_get_state_index _ state Hok)) as [_ Hb].
  apply (Hb (_hash_circuit state)). apply get_state_index_stored.
Qed.

End EnvironmentProperties.

Section EnvironmentClaims.
Context {B : Backend}.

Lemma with_circuit_same (self : QuantumEnv) : with_circuit self (circuit self) = self.
Proof. destruct self. reflexivity. Qed.

(** C7. A second [reset] in a row returns the index the first one returned
    and leaves the environment as the first one left it: the index is the
    one stored for the bucket of the empty circuit.  The first [reset] of a
    fresh environment returns 0. *)
Theorem reset_twice_same_index (self : QuantumEnv) :
  (reset (reset self).1).2 = (reset self).2 /\
  (reset (reset self).1).1 = (reset self).1 /\
  state_to_index (reset self).1 !! _hash_circuit (QuantumCircuit_new (num_qubits self))
    = Some (reset self).2 /\
  (reset QuantumEnv_init).2 = 0.
Proof.
  set (empty := QuantumCircuit_new (num_qubits self)).
  assert (reset self = get_state_index (with_circuit self empty) empty) as Hreset
    by reflexivity.
  pose proof (get_state_index_stored (with_circuit self empty) empty) as Hstored.
  destruct (get_state_index_frame (with_circuit self empty) empty) as (Hc & Hn & _).
  rewrite <- Hreset in Hstored, Hc, Hn. simpl in Hc, Hn.
  assert (reset (reset self).1 = ((reset self).1, (reset self).2)) as Hsecond.
  { unfold reset at 1. rewrite Hn. fold empty. simpl.
    rewrite <- Hc at 1 2. rewrite with_circuit_same. rewrite Hc.
    apply get_state_index_hit. exact Hstored. }
  rewrite Hsecond. simpl. split_and!; try reflexivity. exact Hstored.
Qed.

(** C10. In every environment the program can reach, the bucket id of a
    circuit lies in [0, 100), the table holds at most 100 buckets, a bucket
    seen for the first time gets the number of buckets seen before as its
    index, and every index returned by [get_state_index], [reset] or [step]
    lies in [0, 100) and selects a row of any 100-row table. *)
Theorem state_index_in_bounds (self : QuantumEnv) (state : QuantumCircuit) :
  reachable self ->
  0 <= _hash_circuit state < 100 /\
  (size (state_to_index (get_state_index self state).1) <= 100)%nat /\
  (state_to_index self !! _hash_circuit state = None ->
   (get_state_index self state).2 = Z.of_nat (size (state_to_index self))) /\
  0 <= (get_state_index self state).2 < 100 /\
  0 <= (reset self).2 < 100 /\
  (forall action qubits self' state_index reward done,
     step self action qubits = Ok (self', (state_index, reward, done)) ->
     0 <= state_index < 100) /\
  (forall table : list (list Q), length table = 100%nat ->
     exists row, py_getitem table (get_state_index self state).2 = Ok row).
Proof.
  intros Hreach. pose proof (reachable_table_ok _ Hreach) as Hok.
  pose proof get_state_index_range as Hidx.
  split_and!.
  - apply hash_circuit_range.
  - apply hash_circuit_range.
  - pose proof (table_ok_get_state_index _ state Hok) as Hok'.
    rewrite <- (table_length _ Hok'). apply table_ok_bounds. exact Hok'.
  - intros E. rewrite (get_state_index_miss _ _ E). reflexivity.
  - apply Hidx, Hok.
  - apply Hidx, Hok.
  - apply (Hidx (with_circuit self _)), table_ok_with_circuit, Hok.
  - apply (Hidx (with_circuit self _)), table_ok_with_circuit, Hok.
  - intros action qubits self' i r d (c & _ & _ & -> & _)%step_Ok.
    apply (Hidx (with_circuit self c)), table_ok_with_circuit, Hok.
  - intros table Hlen. specialize (Hidx self state Hok).
    destruct (table !! Z.to_nat (get_state_index self state).2) as [row|] eqn:E.
    + exists row. apply py_getitem_nonneg; [lia | exact E].
    + apply lookup_ge_None in E. lia.
Qed.

(** C8 (amended). A bucket seen for the first time is appended to the table
    with the next index; a bucket seen before keeps its index and the table
    is unchanged; the two sides of the table mirror each other; the table
    only grows across [get_state_index], [reset] and [step]; circuits with
    the same rendering have the same bucket; and the table never holds more
    than 100 buckets, so that every index is below 100. *)
Theorem state_index_table_grows (self : QuantumEnv) (state : QuantumCircuit) :
  reachable self ->
  (state_to_index self !! _hash_circuit state = None ->
   (get_state_index self state).2 = Z.of_nat (length (index_to_state self)) /\
   index_to_state (get_state_index self state).1
     = index_to_state self ++ [_hash_circuit state]) /\
  (forall i, state_to_index self !! _hash_circuit state = Some i ->
   get_state_index self state = (self, i)) /\
  (forall k h, index_to_state (get_state_index self state).1 !! k = Some h <->
               state_to_index (get_state_index self state).1 !! h = Some (Z.of_nat k)) /\
  extends self (get_state_index self state).1 /\
  extends self (reset self).1 /\
  (forall action qubits self' out,
     step self action qubits = Ok (self', out) -> extends self self') /\
  (forall state', draw_text state' = draw_text state ->
     _hash_circuit state' = _hash_circuit state) /\
  (length (index_to_state (get_state_index self state).1) <= 100)%nat /\
  (get_state_index self state).2 < 100.
Proof.
  intros Hreach. pose proof (reachable_table_ok _ Hreach) as Hok.
  pose proof (table_ok_get_state_index _ state Hok) as Hok'.
  split_and!.
  - intros E. rewrite (get_state_index_miss _ _ E). simpl.
    rewrite (table_length _ Hok). auto.
  - intros i E. apply get_state_index_hit. exact E.
  - intros k h. split; [apply (table_forth _ Hok')|].
    intros H. destruct (table_back _ Hok' _ _ H) as [_ Hl].
    rewrite Nat2Z.id in Hl. exact Hl.
  - apply get_state_index_extends.
  - apply reset_extends.
  - intros action qubits self' out. apply step_extends.
  - intros state' E. unfold _hash_circuit. rewrite E. reflexivity.
  - apply table_ok_bounds. exact Hok'.
  - destruct (table_ok_bounds _ Hok') as [_ Hb].
    apply (Hb (_hash_circuit state)). apply get_state_index_stored.
Qed.

End EnvironmentClaims.

Lemma state_index_in_bounds_witness :
  0 <= (@get_state_index Reference.backend QuantumEnv_init (Sample.x_circuit 3)).2 < 100.
Proof.
  apply (@state_index_in_bounds Reference.backend QuantumEnv_init (Sample.x_circuit 3)).
  apply reachable_init.
Defined.

Lemma state_index_table_grows_witness :
  (length (index_to_state
     (@get_state_index Reference.backend QuantumEnv_init (Sample.x_circuit 3)).1) <= 100)%nat.
Proof.
  apply (@state_index_table_grows Reference.backend QuantumEnv_init (Sample.x_circuit 3)).
  apply reachable_init.
Defined.

(** C8, the claim as stated fails: whatever the drawer and the digest, no
    reachable table holds more than 100 buckets and no index reaches 100. *)
Lemma dense_index_never_reaches_100 :
  (forall (B : Backend) (self : QuantumEnv),
     reachable self -> (length (index_to_state self) <= 100)%nat) /\
  (forall (B : Backend) (self : QuantumEnv) (h i : Z),
     reachable self -> state_to_index self !! h = Some i -> i < 100).
Proof.
  split.
  - intros B self H. apply table_ok_bounds, reachable_table_ok, H.
  - intros B self h i H E.
    destruct (table_ok_bounds self (reachable_table_ok _ H)) as [_ Hb].
    apply (Hb h i E).
Qed.

(** ** The reward *)

Section RewardClaims.
Context {B : Backend}.

Lemma append_size (c : QuantumCircuit) (action qubits : pyobj) (c' : QuantumCircuit) :
  append c action qubits = Ok c' -> size_of c' = size_of c + 1.
Proof.
  unfold append. intros H.
  apply bind_Ok in H as (g & _ & H). apply bind_Ok in H as (qs & _ & H).
  destruct (negb _); [discriminate|]. destruct (has_duplicate qs); [discriminate|].
  injection H as <-. unfold size_of. simpl. rewrite length_app. simpl. lia.
Qed.

(** C2. The reward is [-5] times the number of gates of the whole circuit;
    [+100] is added and [done] is set exactly when the fidelity
    [|trace (U^dagger T)| / 2^num_qubits], read as a real number, exceeds
    0.99.  A successful [step] therefore returns the penalty of the circuit
    it has just extended, one gate longer than before, not a difference. *)
Theorem reward_policy (self : QuantumEnv) (target : Matrix) (action qubits : pyobj) :
  let overlap := trace (matmul (transpose (conj (unitary_simulator (circuit self)))) target) in
  let fidelity := (Cmod_R overlap / 2 ^ num_qubits self)%R in
  let penalty := -5 * size_of (circuit self) in
  (((99 / 100 < fidelity)%R /\ _reward self target = (penalty + 100, true)) \/
   ((fidelity <= 99 / 100)%R /\ _reward self target = (penalty, false))) /\
  match step self action qubits with
  | Ok (self', (_, reward, done)) =>
      size_of (circuit self') = size_of (circuit self) + 1 /\
      reward = -5 * size_of (circuit self') + (if done then 100 else 0)
  | Raise _ => True
  end.
Proof.
  intros overlap fidelity penalty. split.
  - assert (Mag_to_R (fidelity_of self target) = fidelity) as Hfid.
    { unfold fidelity_of. rewrite Mag_div_spec by (apply Z.pow_pos_nonneg; lia).
      rewrite np_abs_spec. fold overlap. unfold fidelity. f_equal.
      rewrite <- pow_IZR. reflexivity. }
    assert (Q2R 0.99 = 99 / 100)%R as H99 by (unfold Q2R; simpl; lra).
    unfold _reward. fold penalty.
    destruct (Mag_gtb (fidelity_of self target) 0.99) eqn:E.
    + left. split; [|reflexivity].
      apply Mag_gtb_spec in E. rewrite Hfid, H99 in E. exact E.
    + right. split; [|reflexivity].
      destruct (Rle_lt_dec fidelity (99 / 100)) as [?|Hgt]; [assumption|].
      exfalso. rewrite <- Hfid, <- H99 in Hgt. apply Mag_gtb_spec in Hgt. congruence.
  - destruct (step self action qubits) as [[self' [[i r] d]]|e] eqn:E;
      [|exact I].
    apply step_Ok in E as (c & Hc & -> & _ & Hr).
    destruct (get_state_index_frame (with_circuit self c) c) as (Hcirc & _ & _).
    rewrite Hcirc. simpl. split; [apply (append_size _ _ _ _ Hc)|].
    unfold _reward in Hr. rewrite Hcirc in Hr. simpl in Hr.
    destruct (Mag_gtb _ _); injection Hr as -> ->; lia.
Qed.

(** C9. In an environment whose circuit is empty, and for which the
    simulator returns the identity, the fidelity against iSWAP is exactly
    1/2, so the reward is [0] and [done] is false. *)
Theorem reward_of_empty_circuit (self : QuantumEnv) :
  num_qubits self = 2%nat ->
  circuit self = QuantumCircuit_new 2 ->
  unitary_simulator (QuantumCircuit_new 2) = eye 4 ->
  _reward self iswap_matrix = (0, false) /\
  Mag_to_R (fidelity_of self iswap_matrix) = (1 / 2)%R.
Proof.
  intros Hn Hc Hsim.
  assert (fidelity_of self iswap_matrix = mkMagnitude (mkQsqrt2 (1 # 4) 0)) as Hfid.
  { unfold fidelity_of. rewrite Hc, Hsim, Hn. vm_compute. reflexivity. }
  split.
  - unfold _reward. rewrite Hfid, Hc. vm_compute. reflexivity.
  - rewrite Hfid. unfold Mag_to_R, Qs2_to_R. simpl.
    replace (Q2R (1 # 4) + Q2R 0 * sqrt 2)%R with ((1 / 2) * (1 / 2))%R
      by (unfold Q2R; simpl; lra).
    apply sqrt_square. lra.
Qed.

End RewardClaims.

Lemma reward_of_empty_circuit_witness :
  @_reward Reference.backend QuantumEnv_init iswap_matrix = (0, false).
Proof.
  apply (@reward_of_empty_circuit Reference.backend QuantumEnv_init); reflexivity.
Defined.

Example rewards_are_absolute :
  (c1 ← append (QuantumCircuit_new 2) (PyGate XGate) (PyList [PyInt 0]);
   c2 ← append c1 (PyGate HGate) (PyList [PyInt 1]);
   c3 ← append c2 (PyGate CXGate) (PyList [PyInt 0; PyInt 1]);
   Ok (map (fun c => @_reward Reference.backend (with_circuit QuantumEnv_init c) iswap_matrix)
           [c1; c2; c3]))
  = Ok [(-5, false); (-10, false); (-15, false)].
Proof. vm_compute. reflexivity. Qed.

(** ** The loops *)

Section LoopClaims.
Context {B : Backend}.

(** C3 (amended). When a pass of the training loop leaves more than ten
    gates in the circuit without [done], the reward it received is the plain
    size penalty, [update_q_table] is called with exactly that reward, and
    only then does the loop end, with [100] taken off the episode reward in
    addition; nothing is printed. *)
Theorem truncation_follows_update (episode : Z) (w : World)
    (state_index episode_reward : Z) (chosen gate targets : pyobj) (action_index : Z)
    (rs : RandomState) (env : QuantumEnv) (next_state_index reward : Z) (n : nat) :
  choose_action (agent w) (random w) state_index = Ok (chosen, action_index, rs) ->
  py_subscript chosen 0 = Ok gate ->
  py_subscript chosen 1 = Ok targets ->
  step (environment w) gate targets = Ok (env, (next_state_index, reward, false)) ->
  10 < size_of (circuit env) ->
  reward = -5 * size_of (circuit env) /\
  train_steps (S n) episode w state_index episode_reward =
    (ag ← update_q_table (agent w) state_index action_index (inject_Z reward)
            next_state_index;
     Ok (mkWorld ag env rs (stdout w), episode_reward + reward - 100)).
Proof.
  intros Hchoose Hgate Htargets Hstep Hsize. split.
  - apply step_Ok in Hstep as (c & _ & _ & _ & Hr).
    unfold _reward in Hr. destruct (Mag_gtb _ _); [discriminate|]. congruence.
  - simpl. unfold train_step. rewrite Hchoose. simpl. rewrite Hgate. simpl.
    rewrite Htargets. simpl. rewrite Hstep. simpl.
    destruct (update_q_table (agent w) state_index action_index (inject_Z reward)
                next_state_index)
      as [ag|e]; simpl; [|reflexivity].
    apply Z.ltb_lt in Hsize. rewrite Hsize. reflexivity.
Qed.

(** C4. Any pass of the evaluation loop that gets an action from
    [choose_action] then fails in the call of [step], so a run of
    [test_agent] with at least one episode and one step never returns. *)
Theorem test_agent_raises (w : World) (episodes max_steps : positive) :
  (forall state_index,
     test_step w state_index =
     (choose_action (agent w) (random w) state_index ≫= fun _ => Raise TypeError)) /\
  exists e, test_agent w (Z.pos episodes) (Z.pos max_steps) = Raise e.
Proof.
  assert (forall w s, test_step w s =
            (choose_action (agent w) (random w) s ≫= fun _ => Raise TypeError)) as Hstep.
  { intros w1 s. unfold test_step.
    destruct (choose_action (agent w1) (random w1) s) as [[[chosen a] rs]|e]; reflexivity. }
  split; [apply Hstep|].
  assert (exists e, test_episode (Z.pos max_steps) 0 w = Raise e) as [e He].
  { unfold test_episode.
    destruct (reset (environment w)) as [env1 i1].
    destruct (reset env1) as [env2 i2].
    destruct (Z.to_nat (Z.pos max_steps)) as [|ns] eqn:Es; [lia|].
    cbn [test_steps]. rewrite Hstep. cbn [agent random].
    destruct (choose_action (agent w) (random w) i2) as [[[chosen a] rs]|e];
      simpl; eauto. }
  exists e. unfold test_agent.
  destruct (Z.to_nat (Z.pos episodes)) as [|ne] eqn:Ee; [lia|].
  cbn [for_episodes]. rewrite He. reflexivity.
Qed.

End LoopClaims.

Lemma truncation_follows_update_witness :
  Sample.observe 10 8 (@train_steps Reference.backend 5 0 Sample.ten_gates 10 (-275))
  = Ok (-430, 11, Some (-11 # 4)%Q).
Proof.
  pose (rs := mkRandomState (draws Sample.always_8) 22).
  assert (choose_action (agent Sample.ten_gates) (random Sample.ten_gates) 10
          = Ok (catalog_entry XGate [0], 8, rs)) as Hchoose by (vm_compute; reflexivity).
  assert (@step Reference.backend (environment Sample.ten_gates)
            (PyGate XGate) (PyList [PyInt 0])
          = Ok (Sample.eleven_gates_env, (11, -55, false))) as Hstep
    by (vm_compute; reflexivity).
  assert (10 < size_of (circuit Sample.eleven_gates_env)) as Hsize
    by (vm_compute; reflexivity).
  destruct (@truncation_follows_update Reference.backend 0 Sample.ten_gates 10 (-275)
              (catalog_entry XGate [0]) (PyGate XGate) (PyList [PyInt 0]) 8
              rs Sample.eleven_gates_env 11 (-55) 4
              Hchoose eq_refl eq_refl Hstep Hsize) as [_ Hloop].
  rewrite Hloop. vm_compute. reflexivity.
Defined.

(** C3, the claim as stated fails.  An agent that always explores and draws
    action 8 (X on qubit 0) sees the states 0, 1, ..., 10 in turn.  After ten
    passes the cell [Q[10, 8]] is still 0; the eleventh pass pushes the
    circuit to 11 gates and is cut short, with an episode reward of
    [-330 - 100], and it has written [0.05 * (-55)] into [Q[10, 8]]:
    [update_q_table] ran for the truncating transition. *)
Lemma truncating_transition_is_learned :
  Sample.observe 10 8
    (@train_rollout Reference.backend 10 0 (Sample.start Sample.explorer Sample.always_8))
  = Ok (-275, 10, Some 0%Q) /\
  Sample.observe 10 8
    (@train_rollout Reference.backend 11 0 (Sample.start Sample.explorer Sample.always_8))
  = Ok (-430, 11, Some (-11 # 4)%Q).
Proof. split; vm_compute; reflexivity. Qed.

Example main_agent_is_learner : main_agent = Ok Sample.learner.
Proof. reflexivity. Qed.

Example test_agent_fails_where_train_agent_runs :
  @test_agent Reference.backend (Sample.start Sample.learner (Sample.constant 0)) 1 1
  = Raise TypeError /\
  (@train_agent Reference.backend (Sample.start Sample.learner (Sample.constant 0)) 1 1
     ≫= fun w => Ok (size_of (circuit (environment w))))
  = Ok 1.
Proof. split; vm_compute; reflexivity. Qed.

(** ** Training never raises *)

Section Safety.
#[local] Arguments py_getitem : simpl never.
#[local] Arguments np_getitem2 : simpl never.
#[local] Arguments np_setitem2 : simpl never.
#[local] Arguments np_max : simpl never.
#[local] Arguments np_argmax : simpl never.

Lemma agent_ok_row (self : QLearningAgent) (s : Z) :
  agent_ok self -> 0 <= s < 100 ->
  exists row, py_getitem (q_table self) s = Ok row /\ length row = 14%nat.
Proof.
  intros (_ & Hlen & Hrows) Hs.
  destruct (q_table self !! Z.to_nat s) as [row|] eqn:E.
  - exists row. split; [apply py_getitem_nonneg; [lia | exact E]|].
    eapply Forall_lookup_1 in Hrows; eauto.
  - apply lookup_ge_None in E. lia.
Qed.

Lemma agent_ok_cell (self : QLearningAgent) (s a : Z) :
  agent_ok self -> 0 <= s < 100 -> 0 <= a < 14 ->
  exists old, np_getitem2 (q_table self) s a = Ok old.
Proof.
  intros Hok Hs Ha. destruct (agent_ok_row self s Hok Hs) as (row & Hrow & Hlen).
  destruct (row !! Z.to_nat a) as [old|] eqn:E.
  - exists old. unfold np_getitem2. rewrite Hrow. simpl.
    apply py_getitem_nonneg; [lia | exact E].
  - apply lookup_ge_None in E. lia.
Qed.

Lemma possible_actions_applicable (chosen : pyobj) (c : QuantumCircuit) :
  chosen ∈ possible_actions -> register_size c = 2%nat ->
  exists gate targets c',
    py_subscript chosen 0 = Ok gate /\ py_subscript chosen 1 = Ok targets /\
    append c gate targets = Ok c'.
Proof.
  intros Hin Hreg. destruct c as [n ins]. simpl in Hreg. subst n.
  unfold possible_actions in Hin.
  repeat (apply elem_of_cons in Hin as [->|Hin];
          [do 3 eexists; split_and!; reflexivity|]).
  apply elem_of_nil in Hin. contradiction.
Qed.

Lemma choose_action_succeeds (self : QLearningAgent) (rs : RandomState) (s : Z) :
  agent_ok self -> 0 <= s < 100 ->
  exists chosen a rs',
    choose_action self rs s = Ok (chosen, a, rs') /\ 0 <= a < 14 /\
    chosen ∈ possible_actions.
Proof.
  intros Hok Hs. pose proof Hok as (Hsize & _ & _).
  assert (forall a, 0 <= a < 14 ->
            exists chosen, py_getitem possible_actions a = Ok chosen /\
                           chosen ∈ possible_actions) as Hcat.
  { intros a Ha. destruct (possible_actions !! Z.to_nat a) as [chosen|] eqn:E.
    - exists chosen. split; [apply py_getitem_nonneg; [lia | exact E]|].
      apply list_elem_of_lookup. eauto.
    - apply lookup_ge_None in E. simpl in E. lia. }
  unfold choose_action. destruct (rand rs) as [r rs1].
  destruct (Qlt_le_dec r (epsilon self)) as [_|_].
  - rewrite Hsize. unfold randint, next_draw. simpl.
    set (d := draws rs1 (cursor rs1)).
    pose proof (Z.mod_pos_bound (Z.of_N d) 14 eq_refl) as Hd.
    destruct (Hcat _ Hd) as (chosen & -> & Hin). simpl. eauto 10.
  - destruct (agent_ok_row self s Hok Hs) as (row & -> & Hlen). simpl.
    destruct (np_argmax_spec row) as (a & m & -> & Hm & _).
    { intros ->. discriminate. }
    simpl. apply lookup_lt_Some in Hm.
    destruct (Hcat (Z.of_nat a)) as (chosen & -> & Hin); [lia|]. simpl.
    exists chosen, (Z.of_nat a), rs1. split_and!; auto; lia.
Qed.

Lemma update_q_table_succeeds (self : QLearningAgent) (s a : Z) (reward : Q) (s' : Z) :
  agent_ok self -> 0 <= s < 100 -> 0 <= a < 14 -> 0 <= s' < 100 ->
  exists self', update_q_table self s a reward s' = Ok self' /\ agent_ok self' /\
    epsilon self' = epsilon self /\ decay_rate self' = decay_rate self /\
    epsilon_min self' = epsilon_min self.
Proof.
  intros Hok Hs Ha Hs'. pose proof Hok as (Hsize & Hlen & Hrows).
  destruct (agent_ok_cell self s a Hok Hs Ha) as (old & Hold).
  destruct (agent_ok_row self s' Hok Hs') as (next_row & Hnext & Hnlen).
  destruct (np_max_is_max next_row) as (best & Hbest & _).
  { intros ->. discriminate. }
  unfold update_q_table. rewrite Hold. simpl. rewrite Hnext. simpl. rewrite Hbest. simpl.
  set (new := (old + _)%Q).
  destruct (np_setitem2_Ok _ _ _ new _ Hold) as (r & c & row & Hr & Hrow & Hc & ->).
  simpl. eexists. split; [reflexivity|]. split; [|auto].
  split_and!; simpl; auto.
  - rewrite length_insert. exact Hlen.
  - apply Forall_insert; [exact Hrows|]. rewrite length_insert.
    eapply Forall_lookup_1 in Hrows; eauto.
Qed.

End Safety.

Section LoopSafety.
Context {B : Backend}.
#[local] Arguments choose_action : simpl never.
#[local] Arguments update_q_table : simpl never.
#[local] Arguments step : simpl never.
#[local] Arguments py_subscript : simpl never.
#[local] Arguments decay_exploration : simpl never.
#[local] Arguments reset : simpl never.

Lemma append_register (c : QuantumCircuit) (action qubits : pyobj) (c' : QuantumCircuit) :
  append c action qubits = Ok c' -> register_size c' = register_size c.
Proof.
  unfold append. intros H.
  apply bind_Ok in H as (g & _ & H). apply bind_Ok in H as (qs & _ & H).
  destruct (negb _); [discriminate|]. destruct (has_duplicate qs); [discriminate|].
  injection H as <-. reflexivity.
Qed.

Lemma reachable_register (self : QuantumEnv) :
  reachable self -> num_qubits self = 2%nat /\ register_size (circuit self) = 2%nat.
Proof.
  induction 1 as [|self _ [IHn IHr]|self state _ [IHn IHr]
                  |self action qubits self' out _ [IHn IHr] Hstep].
  - split; reflexivity.
  - change (reset self)
      with (get_state_index (with_circuit self (QuantumCircuit_new (num_qubits self)))
                            (QuantumCircuit_new (num_qubits self))).
    destruct (get_state_index_frame
                (with_circuit self (QuantumCircuit_new (num_qubits self)))
                (QuantumCircuit_new (num_qubits self))) as (-> & -> & _).
    simpl. auto.
  - destruct (get_state_index_frame self state) as (-> & -> & _). auto.
  - destruct out as [[i r] d]. apply step_Ok in Hstep as (c & Hc & -> & _).
    destruct (get_state_index_frame (with_circuit self c) c) as (-> & -> & _).
    simpl. split; [exact IHn|]. rewrite (append_register _ _ _ _ Hc). exact IHr.
Qed.

Lemma step_succeeds (self : QuantumEnv) (action qubits : pyobj) (c : QuantumCircuit) :
  append (circuit self) action qubits = Ok c ->
  exists self' state_index reward done,
    step self action qubits = Ok (self', (state_index, reward, done)).
Proof.
  intros Hc. unfold step. rewrite Hc. simpl.
  destruct (get_state_index (with_circuit self c) c) as [self1 i].
  destruct (_reward self1 (target_unitary self1)) as [r d]. eauto.
Qed.

Lemma reachable_step_index (self : QuantumEnv) (action qubits : pyobj) (self' : QuantumEnv)
    (state_index reward : Z) (done : bool) :
  reachable self ->
  step self action qubits = Ok (self', (state_index, reward, done)) ->
  0 <= state_index < 100.
Proof.
  intros Hreach (c & _ & _ & -> & _)%step_Ok.
  apply get_state_index_range, table_ok_with_circuit, reachable_table_ok, Hreach.
Qed.

Lemma reachable_reset_index (self : QuantumEnv) :
  reachable self -> 0 <= (reset self).2 < 100.
Proof.
  intros Hreach.
  apply (get_state_index_range (with_circuit self _)),
    table_ok_with_circuit, reachable_table_ok, Hreach.
Qed.

Lemma train_step_succeeds (episode : Z) (w : World) (state_index episode_reward : Z) :
  world_ok w -> 0 <= state_index < 100 ->
  exists w' state_index' episode_reward' ctl,
    train_step episode w state_index episode_reward
      = Ok (w', state_index', episode_reward', ctl) /\
    world_ok w' /\ 0 <= state_index' < 100 /\
    exploration (agent w') = exploration (agent w).
Proof.
  intros [Hag Henv] Hs. unfold train_step.
  destruct (choose_action_succeeds (agent w) (random w) state_index Hag Hs)
    as (chosen & a & rs & -> & Ha & Hin).
  simpl.
  destruct (reachable_register _ Henv) as [_ Hreg].
  destruct (possible_actions_applicable chosen (circuit (environment w)) Hin Hreg)
    as (gate & targets & c & -> & -> & Hc).
  simpl.
  destruct (step_succeeds _ _ _ _ Hc) as (env & s' & r & d & Hstep).
  rewrite Hstep. simpl.
  pose proof (reachable_step_index _ _ _ _ _ _ _ Henv Hstep) as Hs'.
  pose proof (reachable_step _ _ _ _ _ Henv Hstep) as Henv'.
  destruct (update_q_table_succeeds (agent w) state_index a (inject_Z r) s' Hag Hs Ha Hs')
    as (ag & -> & Hag' & He & Hd & Hm).
  simpl.
  assert (exploration ag = exploration (agent w)) as Hexp
    by (unfold exploration; congruence).
  destruct d; [|destruct (10 <? size_of (circuit env))];
    do 4 eexists; (split; [reflexivity|]);
    (split; [split; simpl; assumption|]); (split; [exact Hs'|]); exact Hexp.
Qed.

Lemma train_steps_succeeds (n : nat) (episode : Z) (w : World)
    (state_index episode_reward : Z) :
  world_ok w -> 0 <= state_index < 100 ->
  exists w' episode_reward',
    train_steps n episode w state_index episode_reward = Ok (w', episode_reward') /\
    world_ok w' /\ exploration (agent w') = exploration (agent w).
Proof.
  revert w state_index episode_reward.
  induction n as [|n IH]; intros w s er Hw Hs; simpl.
  - eauto.
  - destruct (train_step_succeeds episode w s er Hw Hs)
      as (w1 & s1 & er1 & ctl & -> & Hw1 & Hs1 & Hexp).
    simpl. destruct ctl.
    + eauto.
    + destruct (IH w1 s1 er1 Hw1 Hs1) as (w2 & er2 & -> & Hw2 & Hexp2).
      exists w2, er2. split_and!; auto. congruence.
Qed.

Lemma agent_ok_decay (self : QLearningAgent) : agent_ok self -> agent_ok (decay_exploration self).
Proof. intros H. exact H. Qed.

Lemma train_episode_succeeds (max_steps episode : Z) (w : World) :
  world_ok w ->
  exists w', train_episode max_steps episode w = Ok w' /\ world_ok w' /\
    exists ag, exploration ag = exploration (agent w) /\
               exploration (agent w') = exploration (decay_exploration ag).
Proof.
  intros [Hag Henv]. unfold train_episode, train_rollout.
  pose proof (reachable_reset_index _ Henv) as Hs.
  pose proof (reachable_reset _ Henv) as Henv'.
  destruct (reset (environment w)) as [env s]. simpl in Hs, Henv'.
  destruct (train_steps_succeeds (Z.to_nat max_steps) episode
              (mkWorld (agent w) env (random w) (stdout w)) s 0)
    as (w1 & er & -> & [Hag1 Henv1] & Hexp); [split; assumption | exact Hs |].
  simpl. eexists. split; [reflexivity|]. split.
  - split; simpl; [apply agent_ok_decay, Hag1 | exact Henv1].
  - exists (agent w1). split; [exact Hexp | reflexivity].
Qed.

Lemma exploration_decay (a b : QLearningAgent) :
  exploration a = exploration b ->
  exploration (decay_exploration a) = exploration (decay_exploration b).
Proof. unfold exploration, decay_exploration. simpl. intros [= -> -> ->]. reflexivity. Qed.

Lemma exploration_decayed (n : nat) (a b : QLearningAgent) :
  exploration a = exploration b -> exploration (decayed n a) = exploration (decayed n b).
Proof. intros H. induction n as [|n IH]; simpl; [exact H | apply exploration_decay, IH]. Qed.

Lemma for_train_episodes_succeed (max_steps : Z) (n : nat) (episode : Z) (w : World) :
  world_ok w ->
  exists w', for_episodes (train_episode max_steps) n episode w = Ok w' /\ world_ok w' /\
    exploration (agent w') = exploration (decayed n (agent w)).
Proof.
  revert episode w. induction n as [|n IH]; intros episode w Hw.
  - exists w. auto.
  - cbn [for_episodes].
    destruct (train_episode_succeeds max_steps episode w Hw)
      as (w1 & -> & Hw1 & ag & Hag & Hexp1).
    cbn [mbind result_bind].
    destruct (IH (episode + 1) w1 Hw1) as (w2 & -> & Hw2 & Hexp2).
    exists w2. split_and!; auto.
    rewrite Hexp2. unfold decayed. rewrite Nat.iter_succ_r.
    apply exploration_decayed. rewrite Hexp1. apply exploration_decay, Hag.
Qed.

(** X1. With a Q-table of 100 rows of 14 values, [action_size = 14] and an
    environment the program can reach, [train_agent] returns: every index
    into the table and the catalogue is in range and every catalogued gate
    is accepted.  The table keeps its shape and epsilon has been decayed
    once per episode. *)
Theorem train_agent_never_raises (w : World) (episodes max_steps_per_episode : Z) :
  agent_ok (agent w) -> reachable (environment w) ->
  exists w',
    train_agent w episodes max_steps_per_episode = Ok w' /\
    agent_ok (agent w') /\ reachable (environment w') /\
    (epsilon (agent w'), decay_rate (agent w'), epsilon_min (agent w'))
    = (epsilon (decayed (Z.to_nat episodes) (agent w)), decay_rate (agent w),
       epsilon_min (agent w)).
Proof.
  intros Hag Henv.
  destruct (for_train_episodes_succeed max_steps_per_episode (Z.to_nat episodes) 0 w)
    as (w' & Hrun & [Hag' Henv'] & Hexp); [split; assumption|].
  exists w'. split_and!; auto.
  destruct (decayed_parameters (Z.to_nat episodes) (agent w)) as (Hm & Hd & _).
  unfold exploration in Hexp. rewrite Hexp, Hm, Hd. reflexivity.
Qed.

End LoopSafety.

(** ** Episodes *)



Section Episodes.
Context {B : Backend}.
#[local] Arguments choose_action : simpl never.
#[local] Arguments update_q_table : simpl never.
#[local] Arguments step : simpl never.
#[local] Arguments py_subscript : simpl never.

Lemma step_size (self : QuantumEnv) (action qubits : pyobj) (self' : QuantumEnv)
    (out : Z * Z * bool) :
  step self action qubits = Ok (self', out) ->
  size_of (circuit self') = size_of (circuit self) + 1.
Proof.
  destruct out as [[i r] d]. intros (c & Hc & -> & _)%step_Ok.
  destruct (get_state_index_frame (with_circuit self c) c) as (-> & _ & _).
  simpl. apply (append_size _ _ _ _ Hc).
Qed.

Lemma train_step_size (episode : Z) (w w' : World) (s er s' er' : Z) (ctl : control) :
  train_step episode w s er = Ok (w', s', er', ctl) ->
  size_of (circuit (environment w')) = size_of (circuit (environment w)) + 1 /\
  (ctl = Continue -> size_of (circuit (environment w')) <= 10).
Proof.
  unfold train_step. intros H.
  apply bind_Ok in H as ([[chosen a] rs] & _ & H).
  apply bind_Ok in H as (gate & _ & H). apply bind_Ok in H as (targets & _ & H).
  apply bind_Ok in H as ([env [[s1 r] d]] & Hstep & H).
  apply bind_Ok in H as (ag & _ & H).
  simpl in Hstep. apply step_size in Hstep.
  destruct d; [|destruct (10 <? size_of (circuit env)) eqn:E];
    injection H as <- <- <- <-; simpl; split; auto; try discriminate.
  intros _. apply Z.ltb_ge in E. exact E.
Qed.

(** X2. An episode of training never leaves more than eleven gates in the
    circuit, whatever the step budget. *)
Theorem training_episode_at_most_11_gates (max_steps episode : Z) (w w' : World)
    (episode_reward : Z) :
  train_rollout max_steps episode w = Ok (w', episode_reward) ->
  0 <= size_of (circuit (environment w')) <= 11.
Proof.
  unfold train_rollout.
  pose proof (get_state_index_frame
                (with_circuit (environment w)
                   (QuantumCircuit_new (num_qubits (environment w))))
                (QuantumCircuit_new (num_qubits (environment w)))) as (Hc & _ & _).
  change (get_state_index _ _) with (reset (environment w)) in Hc.
  destruct (reset (environment w)) as [env s]. simpl in Hc.
  set (w0 := mkWorld (agent w) env (random w) (stdout w)).
  assert (size_of (circuit (environment w0)) <= 10) as Hsize
    by (simpl; rewrite Hc; unfold size_of; simpl; lia).
  clearbody w0. clear Hc. generalize 0 at 1. revert w0 s Hsize.
  induction (Z.to_nat max_steps) as [|n IH]; intros w0 s Hsize er H; simpl in H.
  - injection H as <- <-. unfold size_of in *. lia.
  - apply bind_Ok in H as ([[[w1 s1] er1] ctl] & Hstep & H).
    apply train_step_size in Hstep as [Hplus Hcont].
    destruct ctl.
    + injection H as <- <-. unfold size_of in *. lia.
    + apply (IH w1 s1 (Hcont eq_refl) er1 H).
Qed.

(** X3. A circuit that the simulator maps to the iSWAP matrix has fidelity
    exactly 1 and ends the episode with the bonus. *)
Theorem reward_of_iswap_circuit (self : QuantumEnv) :
  num_qubits self = 2%nat ->
  unitary_simulator (circuit self) = iswap_matrix ->
  _reward self iswap_matrix = (-5 * size_of (circuit self) + 100, true) /\
  Mag_to_R (fidelity_of self iswap_matrix) = 1%R.
Proof.
  intros Hn Hsim.
  assert (fidelity_of self iswap_matrix = mkMagnitude (mkQsqrt2 1 0)) as Hfid.
  { unfold fidelity_of. rewrite Hsim, Hn. vm_compute. reflexivity. }
  split.
  - unfold _reward. rewrite Hfid. reflexivity.
  - rewrite Hfid. unfold Mag_to_R, Qs2_to_R. simpl.
    replace (Q2R 1 + Q2R 0 * sqrt 2)%R with 1%R by (unfold Q2R; simpl; lra).
    apply sqrt_1.
Qed.

End Episodes.

Lemma train_agent_never_raises_witness :
  exists w', @train_agent Reference.backend (Sample.start Sample.learner (Sample.constant 3)) 2 3
             = Ok w'.
Proof.
  destruct (@train_agent_never_raises Reference.backend
              (Sample.start Sample.learner (Sample.constant 3)) 2 3)
    as (w' & Hrun & _).
  - split_and!; [reflexivity | reflexivity |].
    apply Forall_forall. intros row Hrow. apply elem_of_replicate in Hrow as [-> _].
    reflexivity.
  - apply reachable_init.
  - exists w'. exact Hrun.
Defined.

Lemma training_episode_at_most_11_gates_witness :
  0 <= size_of (circuit (environment Sample.ten_gates)) <= 11.
Proof.
  apply (@training_episode_at_most_11_gates Reference.backend 10 0
           (Sample.start Sample.explorer Sample.always_8) Sample.ten_gates (-275)).
  vm_compute. reflexivity.
Defined.

Lemma reward_of_iswap_circuit_witness :
  @_reward Reference.backend (with_circuit QuantumEnv_init Sample.iswap_circuit) iswap_matrix
  = (70, true).
Proof.
  apply (@reward_of_iswap_circuit Reference.backend
           (with_circuit QuantumEnv_init Sample.iswap_circuit));
    vm_compute; reflexivity.
Defined.

(** ** The reverse lookup *)

Section ReverseLookup.
Context {B : Backend}.

Lemma py_index_negative (n : nat) (i : Z) :
  - Z.of_nat n <= i < 0 -> py_index n i = Ok (Z.to_nat (i + Z.of_nat n)).
Proof.
  intros Hi. unfold py_index.
  destruct (0 <=? i) eqn:H0; [lia|]. simpl.
  destruct (- Z.of_nat n <=? i) eqn:H1, (i <? 0) eqn:H2; simpl; try reflexivity; lia.
Qed.

Lemma py_index_outside (n : nat) (i : Z) :
  i < - Z.of_nat n \/ Z.of_nat n <= i -> py_index n i = Raise IndexError.
Proof.
  intros Hi. unfold py_index.
  destruct (0 <=? i) eqn:H0, (i <? Z.of_nat n) eqn:H1; simpl;
    try destruct (- Z.of_nat n <=? i) eqn:H2; try destruct (i <? 0) eqn:H3; simpl;
    try reflexivity; lia.
Qed.

Lemma py_getitem_outside {A : Type} (l : list A) (i : Z) :
  i < - Z.of_nat (length l) \/ Z.of_nat (length l) <= i -> py_getitem l i = Raise IndexError.
Proof. intros Hi. unfold py_getitem. rewrite py_index_outside by exact Hi. reflexivity. Qed.

Lemma py_getitem_negative {A : Type} (l : list A) (i : Z) :
  - Z.of_nat (length l) <= i < 0 -> exists x, py_getitem l i = Ok x.
Proof.
  intros Hi. unfold py_getitem. rewrite py_index_negative by exact Hi. simpl.
  destruct (l !! Z.to_nat (i + Z.of_nat (length l))) as [x|] eqn:E; [eauto|].
  apply lookup_ge_None in E. lia.
Qed.

Lemma find_value_None (m : gmap Z Z) (index : Z) :
  (forall h i, m !! h = Some i -> i <> index) ->
  List.find (fun item => item.2 =? index) (map_to_list m) = None.
Proof.
  intros Hne. destruct (List.find _ _) as [[h i]|] eqn:E; [|reflexivity].
  apply find_some in E as [Hin Heq]. simpl in Heq. apply Z.eqb_eq in Heq.
  apply list_elem_of_In, elem_of_map_to_list in Hin. exfalso. eapply Hne; eauto.
Qed.

Lemma find_value_Some (m : gmap Z Z) (index h : Z) :
  m !! h = Some index ->
  exists item, List.find (fun item => item.2 =? index) (map_to_list m) = Some item.
Proof.
  intros Hh. destruct (List.find _ _) as [item|] eqn:E; [eauto|].
  exfalso. assert (In (h, index) (map_to_list m)) as Hin
    by (apply list_elem_of_In, elem_of_map_to_list; exact Hh).
  pose proof (find_none _ _ E (h, index) Hin) as Hf.
  simpl in Hf. apply Z.eqb_neq in Hf. apply Hf. reflexivity.
Qed.

(** X4. On a circuit the dynamically typed [_hash_circuit] is the bucket
    function of the environment, and on an [int] it raises
    [AttributeError].  So in an environment the program can reach
    [get_state_from_index] never returns a circuit: at a position of the
    table the loop finds the item and hashes its [int] key, which raises
    [AttributeError]; a negative index that the list still accepts matches
    no item and gives [None]; any other index raises [IndexError]. *)
Theorem get_state_from_index_never_returns (self : QuantumEnv) (index : Z)
    (c : QuantumCircuit) :
  reachable self ->
  _hash_circuit_dyn (Circuit c) = inr (_hash_circuit c) /\
  _hash_circuit_dyn (Integer index) = inl AttributeError /\
  get_state_from_index self index =
    if (0 <=? index) && (index <? Z.of_nat (length (index_to_state self)))
    then inl AttributeError
    else if (- Z.of_nat (length (index_to_state self)) <=? index) && (index <? 0)
    then inr None
    else inl (Raised IndexError).
Proof.
  intros Hreach. split; [reflexivity|]. split; [reflexivity|].
  pose proof (reachable_table_ok _ Hreach) as Hok.
  unfold get_state_from_index. set (n := Z.of_nat (length (index_to_state self))).
  destruct ((0 <=? index) && (index <? n)) eqn:Hin.
  - apply andb_true_iff in Hin as [H0 H1]. apply Z.leb_le in H0. apply Z.ltb_lt in H1.
    destruct (index_to_state self !! Z.to_nat index) as [h|] eqn:E.
    2: { apply lookup_ge_None in E. lia. }
    rewrite (py_getitem_nonneg _ _ _ H0 E).
    pose proof (table_forth _ Hok _ _ E) as Hh. rewrite Z2Nat.id in Hh by exact H0.
    destruct (find_value_Some _ _ _ Hh) as ([h' i'] & ->). reflexivity.
  - destruct ((- n <=? index) && (index <? 0)) eqn:Hneg.
    + apply andb_true_iff in Hneg as [H0 H1]. apply Z.leb_le in H0. apply Z.ltb_lt in H1.
      destruct (py_getitem_negative (index_to_state self) index) as (h & ->); [lia|].
      rewrite find_value_None; [reflexivity|].
      intros h' i Hi. destruct (table_back _ Hok _ _ Hi) as [Hpos _]. lia.
    + rewrite py_getitem_outside; [reflexivity|].
      apply andb_false_iff in Hin. apply andb_false_iff in Hneg.
      rewrite Z.leb_gt, Z.ltb_ge in Hin. rewrite Z.leb_gt, Z.ltb_ge in Hneg. lia.
Qed.

End ReverseLookup.

Lemma get_state_from_index_never_returns_witness :
  @get_state_from_index Reference.backend (@reset Reference.backend QuantumEnv_init).1 0
  = inl AttributeError.
Proof.
  destruct (@get_state_from_index_never_returns Reference.backend
              (@reset Reference.backend QuantumEnv_init).1 0 (Sample.x_circuit 3))
    as (_ & _ & H).
  - apply reachable_reset, reachable_init.
  - exact H.
Defined.

(** ** What an episode earns and prints *)

Section EpisodeSummary.
Context {B : Backend}.
#[local] Arguments choose_action : simpl never.
#[local] Arguments update_q_table : simpl never.
#[local] Arguments step : simpl never.
#[local] Arguments py_subscript : simpl never.
#[local] Arguments reset : simpl never.
#[local] Arguments decay_exploration : simpl never.

Lemma triangle_succ (n : Z) : 0 <= n -> triangle (n + 1) = triangle n + (n + 1).
Proof.
  intros Hn. unfold triangle.
  replace ((n + 1) * (n + 1 + 1)) with (n * (n + 1) + (n + 1) * 2) by ring.
  rewrite Z.div_add by lia. reflexivity.
Qed.

Lemma step_reward (self : QuantumEnv) (action qubits : pyobj) (self' : QuantumEnv)
    (state_index reward : Z) (done : bool) :
  step self action qubits = Ok (self', (state_index, reward, done)) ->
  size_of (circuit self') = size_of (circuit self) + 1 /\
  done = solved self' /\
  reward = -5 * size_of (circuit self') + (if done then 100 else 0).
Proof.
  intros Hstep. pose proof (step_size _ _ _ _ _ Hstep) as Hsize.
  apply step_Ok in Hstep as (c & _ & _ & _ & Hr).
  unfold _reward in Hr. fold (solved self') in Hr.
  destruct (solved self'); injection Hr as -> ->; split_and!; auto; lia.
Qed.

(** What one pass of the training loop does to the circuit, the episode
    reward and the output. *)
Lemma train_step_outcome (episode : Z) (w w' : World) (s er s' er' : Z) (ctl : control) :
  train_step episode w s er = Ok (w', s', er', ctl) ->
  let n := size_of (circuit (environment w')) in
  n = size_of (circuit (environment w)) + 1 /\
  ((solved (environment w') = true /\ ctl = Break /\ er' = er - 5 * n + 100 /\
    stdout w' = stdout w ++ ["Generated circuit:"; draw_text (circuit (environment w'));
                             episode_line episode er']) \/
   (solved (environment w') = false /\ 10 < n /\ ctl = Break /\ er' = er - 5 * n - 100 /\
    stdout w' = stdout w) \/
   (solved (environment w') = false /\ n <= 10 /\ ctl = Continue /\ er' = er - 5 * n /\
    stdout w' = stdout w)).
Proof.
  unfold train_step. intros H.
  apply bind_Ok in H as ([[chosen a] rs] & _ & H).
  apply bind_Ok in H as (gate & _ & H). apply bind_Ok in H as (targets & _ & H).
  apply bind_Ok in H as ([env [[s1 r] d]] & Hstep & H).
  apply bind_Ok in H as (ag & _ & H).
  simpl in Hstep. apply step_reward in Hstep as (Hsize & Hd & Hr).
  destruct d.
  - injection H as <- <- <- <-. simpl. split; [exact Hsize|]. left.
    split_and!; auto; [lia|]. unfold render. rewrite <- !app_assoc. reflexivity.
  - destruct (10 <? size_of (circuit env)) eqn:E; injection H as <- <- <- <-; simpl;
      (split; [exact Hsize|]); right.
    + left. apply Z.ltb_lt in E. split_and!; auto; lia.
    + right. apply Z.ltb_ge in E. split_and!; auto; lia.
Qed.

(** The inner loop, started with [n0 <= 10] gates and the reward of [n0]
    unsolved passes. *)
Lemma train_steps_summary (budget : nat) (episode : Z) (w w' : World) (s er : Z) :
  let n0 := size_of (circuit (environment w)) in
  n0 <= 10 ->
  train_steps budget episode w s (-5 * triangle n0) = Ok (w', er) ->
  let n := size_of (circuit (environment w')) in
  (n0 < n <= 11 /\ solved (environment w') = true /\ er = 100 - 5 * triangle n /\
   stdout w' = stdout w ++ ["Generated circuit:"; draw_text (circuit (environment w'));
                            episode_line episode er]) \/
  (n = 11 /\ solved (environment w') = false /\ er = -430 /\ stdout w' = stdout w) \/
  (n = n0 + Z.of_nat budget /\ n <= 10 /\ er = -5 * triangle n /\ stdout w' = stdout w).
Proof.
  revert w s. induction budget as [|budget IH]; intros w s n0 Hn0 H; simpl in H.
  - injection H as <- <-. right. right. subst n0. split_and!; auto; lia.
  - apply bind_Ok in H as ([[[w1 s1] er1] ctl] & Hstep & H).
    apply train_step_outcome in Hstep as (Hsize & Hcase).
    assert (0 <= n0) as Hpos by (unfold n0, size_of; lia). fold n0 in Hsize.
    set (n1 := size_of (circuit (environment w1))) in *.
    pose proof (triangle_succ n0 Hpos) as Htri. rewrite <- Hsize in Htri.
    destruct Hcase as [(Hs & -> & Her & Hout)|[(Hs & Hbig & -> & Her & Hout)
                                               |(Hs & Hsmall & -> & Her & Hout)]].
    + injection H as <- <-. left. fold n1. split_and!; auto; lia.
    + injection H as <- <-. right. left. fold n1.
      assert (n1 = 11) as Hn1 by lia. split_and!; auto.
      rewrite Her, Hn1. replace n0 with 10 by lia. reflexivity.
    + assert (er1 = -5 * triangle n1) as Her1 by lia. rewrite Her1 in H.
      specialize (IH w1 s1 Hsmall H). fold n1 in IH. cbv zeta in IH.
      destruct IH as [(Hn & Hsol & Hr & Ho)|[(Hn & Hsol & Hr & Ho)|(Hn & Hle & Hr & Ho)]].
      * left. split_and!; auto; [lia | lia | congruence].
      * right. left. split_and!; auto. congruence.
      * right. right. split_and!; auto; [lia | congruence].
Qed.

Lemma reset_circuit (self : QuantumEnv) :
  circuit (reset self).1 = QuantumCircuit_new (num_qubits self).
Proof.
  change (reset self)
    with (get_state_index (with_circuit self (QuantumCircuit_new (num_qubits self)))
                          (QuantumCircuit_new (num_qubits self))).
  destruct (get_state_index_frame
              (with_circuit self (QuantumCircuit_new (num_qubits self)))
              (QuantumCircuit_new (num_qubits self))) as (-> & _). reflexivity.
Qed.

Lemma train_rollout_summary (max_steps episode : Z) (w w' : World) (er : Z) :
  train_rollout max_steps episode w = Ok (w', er) ->
  let n := size_of (circuit (environment w')) in
  (1 <= n <= 11 /\ solved (environment w') = true /\ er = 100 - 5 * triangle n /\
   stdout w' = stdout w ++ ["Generated circuit:"; draw_text (circuit (environment w'));
                            episode_line episode er]) \/
  (n = 11 /\ solved (environment w') = false /\ er = -430 /\ stdout w' = stdout w) \/
  (n = Z.max 0 max_steps /\ n <= 10 /\ er = -5 * triangle n /\ stdout w' = stdout w).
Proof.
  unfold train_rollout. pose proof (reset_circuit (environment w)) as Hc.
  destruct (reset (environment w)) as [env s]. simpl in Hc. intros H.
  pose proof (train_steps_summary (Z.to_nat max_steps) episode
                (mkWorld (agent w) env (random w) (stdout w)) w' s er) as Hsum.
  cbv zeta in Hsum. cbn [environment stdout] in Hsum. rewrite Hc in Hsum.
  change (size_of (QuantumCircuit_new (num_qubits (environment w)))) with 0 in Hsum.
  change (-5 * triangle 0) with 0 in Hsum.
  specialize (Hsum ltac:(lia) H).
  destruct Hsum as [Hsum|[Hsum|Hsum]]; [left | right; left | right; right]; try exact Hsum.
  - destruct Hsum as (? & ? & ? & ?). split_and!; auto; lia.
  - destruct Hsum as (? & ? & ? & ?). split_and!; auto; lia.
Qed.

(** X5. The episode reward of a training episode is fixed by how the
    episode ends and by the number [n] of gates applied: [100 - 5 n(n+1)/2]
    for an episode that reaches the threshold with its [n]-th gate,
    [-430] for an episode cut short at eleven gates, and [-5 n(n+1)/2] for
    one that uses up a budget of [n <= 10] steps. *)
Theorem episode_reward_closed_form (max_steps episode : Z) (w w' : World) (er : Z) :
  train_rollout max_steps episode w = Ok (w', er) ->
  let n := size_of (circuit (environment w')) in
  (1 <= n <= 11 /\ solved (environment w') = true /\ er = 100 - 5 * triangle n) \/
  (n = 11 /\ solved (environment w') = false /\ er = -430) \/
  (n = Z.max 0 max_steps /\ n <= 10 /\ er = -5 * triangle n).
Proof.
  intros H. apply train_rollout_summary in H. cbv zeta in *.
  destruct H as [(? & ? & ? & _)|[(? & ? & ? & _)|(? & ? & ? & _)]]; auto 10.
Qed.

(** X6. What one training episode prints: nothing in the inner loop unless
    the threshold is reached, in which case the three lines of the success
    report; then the progress line when the episode number is a multiple of
    100, so that a successful hundredth episode reports its total twice. *)
Theorem episode_output (max_steps episode : Z) (w w' : World) :
  train_episode max_steps episode w = Ok w' ->
  let n := size_of (circuit (environment w')) in
  (solved (environment w') = true /\
   stdout w' = stdout w ++ ["Generated circuit:"; draw_text (circuit (environment w'));
                            episode_line episode (100 - 5 * triangle n)]
                        ++ progress_lines episode (100 - 5 * triangle n)) \/
  (n = 11 /\ solved (environment w') = false /\
   stdout w' = stdout w ++ progress_lines episode (-430)) \/
  (n = Z.max 0 max_steps /\ n <= 10 /\
   stdout w' = stdout w ++ progress_lines episode (-5 * triangle n)).
Proof.
  unfold train_episode. intros H. apply bind_Ok in H as ([w1 er] & Hroll & H).
  apply train_rollout_summary in Hroll. injection H as <-. simpl.
  assert (forall out, (if (episode + 1) mod 100 =? 0 then out ++ [episode_line episode er]
                       else out) = out ++ progress_lines episode er) as Hp.
  { intros out. unfold progress_lines. destruct (_ =? 0); [reflexivity|].
    rewrite app_nil_r. reflexivity. }
  rewrite Hp. cbv zeta in Hroll.
  destruct Hroll as [(_ & Hs & -> & ->)|[(Hn & Hs & -> & ->)|(Hn & Hle & -> & ->)]].
  - left. split; [exact Hs|]. rewrite <- app_assoc. reflexivity.
  - right. left. auto.
  - right. right. auto.
Qed.

End EpisodeSummary.

(** ** The evaluation loop and the main block *)

Section MainProgram.
Context {B : Backend}.

#[local] Arguments choose_action : simpl never.
#[local] Arguments reset : simpl never.

Lemma test_step_fails (w : World) (state_index : Z) :
  test_step w state_index =
  (choose_action (agent w) (random w) state_index ≫= fun _ => Raise TypeError).
Proof.
  unfold test_step.
  destruct (choose_action (agent w) (random w) state_index) as [[[chosen a] rs]|e];
    reflexivity.
Qed.

Lemma test_episode_fails (max_steps episode : Z) (w : World) :
  0 < max_steps -> world_ok w -> test_episode max_steps episode w = Raise TypeError.
Proof.
  intros Hm [Hag Henv]. unfold test_episode.
  pose proof (reachable_reset _ Henv) as Henv1.
  destruct (reset (environment w)) as [env1 i1]. simpl in Henv1.
  pose proof (reachable_reset_index _ Henv1) as Hi.
  destruct (reset env1) as [env2 i2]. simpl in Hi.
  destruct (Z.to_nat max_steps) as [|n] eqn:En; [lia|].
  cbn [test_steps]. rewrite test_step_fails. cbn [agent random].
  destruct (choose_action_succeeds (agent w) (random w) i2 Hag Hi) as (c & a & rs & -> & _).
  reflexivity.
Qed.

(** Evaluation returns exactly when it attempts no step. *)
Lemma test_agent_fails (w : World) (episodes max_steps : Z) :
  0 < episodes -> 0 < max_steps -> world_ok w ->
  test_agent w episodes max_steps = Raise TypeError.
Proof.
  intros He Hm Hw. unfold test_agent.
  destruct (Z.to_nat episodes) as [|n] eqn:En; [lia|].
  cbn [for_episodes]. rewrite test_episode_fails by assumption. reflexivity.
Qed.

(** X8. The program as written always ends with the [TypeError] of the
    evaluation loop: training runs to completion whatever the random draws,
    the drawer, the digest and the simulator, and the first evaluation step
    then fails. *)
Theorem main_ends_in_TypeError (rs : RandomState) : main rs = Raise TypeError.
Proof.
  unfold main. change (QLearningAgent_init 100 14 0.05 0.95 0.9 0.99 0.01)
    with (Ok Sample.learner). cbn [mbind result_bind].
  assert (world_ok (mkWorld Sample.learner QuantumEnv_init rs [])) as Hw.
  { split; simpl; [|apply reachable_init].
    split_and!; [reflexivity | reflexivity |].
    apply Forall_forall. intros row Hrow. apply elem_of_replicate in Hrow as [-> _].
    reflexivity. }
  destruct (for_train_episodes_succeed 10000 (Z.to_nat 100000) 0 _ Hw)
    as (w' & Hrun & Hw' & _).
  unfold train_agent. rewrite Hrun. cbn [mbind result_bind].
  apply test_agent_fails; [lia | lia | exact Hw'].
Qed.

End MainProgram.

Lemma episode_reward_closed_form_witness :
  size_of (circuit (environment Sample.solved_rollout)) = 6 /\
  @solved Reference.backend (environment Sample.solved_rollout) = true /\
  -5 = 100 - 5 * triangle 6.
Proof.
  destruct (@episode_reward_closed_form Reference.backend 20 99
              (Sample.start Sample.explorer Sample.iswap_draws) Sample.solved_rollout (-5))
    as [(_ & Hs & _)|[(H11 & _)|(_ & _ & Her)]].
  - vm_compute. reflexivity.
  - split_and!; [vm_compute; reflexivity | exact Hs | reflexivity].
  - vm_compute in H11. discriminate.
  - vm_compute in Her. discriminate.
Defined.

Lemma episode_output_witness :
  stdout Sample.solved_episode
  = ["Generated circuit:"; "s_0;s_1;h_0;cx_0_1;cx_1_0;h_1;";
     "Episode 100: Total Reward = -5"; "Episode 100: Total Reward = -5"].
Proof.
  destruct (@episode_output Reference.backend 20 99
              (Sample.start Sample.explorer Sample.iswap_draws) Sample.solved_episode)
    as [(_ & Hout)|[(H11 & _)|(Hn & _)]].
  - vm_compute. reflexivity.
  - rewrite Hout. vm_compute. reflexivity.
  - vm_compute in H11. discriminate.
  - vm_compute in Hn. discriminate.
Defined.

Section Evaluation.
Context {B : Backend}.
#[local] Arguments choose_action : simpl never.
#[local] Arguments reset : simpl never.

Lemma test_episode_raises (max_steps episode : Z) (w : World) :
  0 < max_steps -> exists e, test_episode max_steps episode w = Raise e.
Proof.
  intros Hm. unfold test_episode.
  destruct (reset (environment w)) as [env1 i1]. destruct (reset env1) as [env2 i2].
  destruct (Z.to_nat max_steps) as [|n] eqn:En; [lia|].
  cbn [test_steps]. rewrite test_step_fails. cbn [agent random].
  destruct (choose_action (agent w) (random w) i2) as [[[c a] rs]|e]; simpl; eauto.
Qed.

Lemma test_episode_idle (max_steps episode : Z) (w : World) :
  max_steps <= 0 ->
  test_episode max_steps episode w
  = Ok (mkWorld (agent w) (reset (reset (environment w)).1).1 (random w) (stdout w)).
Proof.
  intros Hm. unfold test_episode.
  destruct (reset (environment w)) as [env1 i1]. simpl.
  destruct (reset env1) as [env2 i2]. simpl.
  replace (Z.to_nat max_steps) with O by lia. reflexivity.
Qed.

Lemma reset_idempotent (self : QuantumEnv) : (reset (reset self).1).1 = (reset self).1.
Proof.
  set (empty := QuantumCircuit_new (num_qubits self)).
  assert (reset self = get_state_index (with_circuit self empty) empty) as Hreset
    by reflexivity.
  pose proof (get_state_index_stored (with_circuit self empty) empty) as Hstored.
  destruct (get_state_index_frame (with_circuit self empty) empty) as (Hc & Hn & _).
  rewrite <- Hreset in Hstored, Hc, Hn. simpl in Hc, Hn.
  unfold reset at 1. rewrite Hn. fold empty. simpl.
  rewrite <- Hc at 1 2. rewrite with_circuit_same. rewrite Hc.
  rewrite (get_state_index_hit _ _ _ Hstored). reflexivity.
Qed.

Lemma test_episodes_idle (max_steps : Z) (n : nat) (episode : Z) (w : World) :
  max_steps <= 0 ->
  for_episodes (test_episode max_steps) n episode w
  = Ok (mkWorld (agent w)
                (Nat.iter (2 * n) (fun env => (reset env).1) (environment w))
                (random w) (stdout w)).
Proof.
  intros Hm. revert episode w. induction n as [|n IH]; intros episode w.
  - destruct w. reflexivity.
  - cbn [for_episodes]. rewrite (test_episode_idle max_steps episode w Hm).
    cbn [mbind result_bind]. rewrite IH. cbn [agent environment random stdout].
    replace (2 * S n)%nat with (S (S (2 * n))) by lia.
    rewrite !Nat.iter_succ_r. reflexivity.
Qed.

Lemma resets_collapse (n : nat) (self : QuantumEnv) :
  (0 < n)%nat -> Nat.iter n (fun env => (reset env).1) self = (reset self).1.
Proof.
  destruct n as [|n]; [lia|]. intros _.
  induction n as [|n IH]; [reflexivity|].
  rewrite Nat.iter_succ, IH. apply reset_idempotent.
Qed.

(** X9. [test_agent] returns exactly when it attempts no step, that is when
    the number of episodes or the step budget is not positive.  The world it
    then returns is the one it was given, with the environment reset twice
    per episode and nothing else done to it: the agent, the generator and
    the output are as before, and after at least one episode the
    environment is the one a single [reset] leaves. *)
Theorem test_agent_returns_iff_idle (w : World) (episodes max_steps_per_episode : Z) :
  ((exists w', test_agent w episodes max_steps_per_episode = Ok w') <->
   (episodes <= 0 \/ max_steps_per_episode <= 0)) /\
  (forall w', test_agent w episodes max_steps_per_episode = Ok w' ->
     w' = mkWorld (agent w)
                  (Nat.iter (2 * Z.to_nat episodes) (fun env => (reset env).1)
                            (environment w))
                  (random w) (stdout w) /\
     environment w'
     = if 0 <? episodes then (reset (environment w)).1 else environment w).
Proof.
  assert (0 < episodes -> 0 < max_steps_per_episode ->
          exists e, test_agent w episodes max_steps_per_episode = Raise e) as Hfail.
  { intros He Hm. unfold test_agent.
    destruct (Z.to_nat episodes) as [|n] eqn:En; [lia|]. cbn [for_episodes].
    destruct (test_episode_raises max_steps_per_episode 0 w Hm) as (e & ->). eauto. }
  assert (episodes <= 0 \/ max_steps_per_episode <= 0 ->
          test_agent w episodes max_steps_per_episode
          = Ok (mkWorld (agent w)
                  (Nat.iter (2 * Z.to_nat episodes) (fun env => (reset env).1)
                            (environment w))
                  (random w) (stdout w))) as Hidle.
  { intros [He|Hm]; unfold test_agent.
    - replace (Z.to_nat episodes) with O by lia. destruct w. reflexivity.
    - apply test_episodes_idle. exact Hm. }
  split.
  - split.
    + intros (w' & Hw'). destruct (Z_lt_le_dec 0 episodes) as [He|He]; [|auto].
      destruct (Z_lt_le_dec 0 max_steps_per_episode) as [Hm|Hm]; [|auto].
      destruct (Hfail He Hm) as (e & Hr). congruence.
    + intros H. rewrite (Hidle H). eauto.
  - intros w' Hw'.
    assert (episodes <= 0 \/ max_steps_per_episode <= 0) as H.
    { destruct (Z_lt_le_dec 0 episodes) as [He|He]; [|auto].
      destruct (Z_lt_le_dec 0 max_steps_per_episode) as [Hm|Hm]; [|auto].
      destruct (Hfail He Hm) as (e & Hr). congruence. }
    rewrite (Hidle H) in Hw'. injection Hw' as <-. split; [reflexivity|].
    cbn [environment].
    destruct (0 <? episodes) eqn:E.
    + apply Z.ltb_lt in E. apply resets_collapse. lia.
    + apply Z.ltb_ge in E. replace (Z.to_nat episodes) with O by lia. reflexivity.
Qed.

End Evaluation.

(** ** Edge behaviour of the agent *)

Section AgentEdges.
#[local] Arguments py_getitem : simpl never.
#[local] Arguments np_getitem2 : simpl never.
#[local] Arguments np_setitem2 : simpl never.
#[local] Arguments np_max : simpl never.
#[local] Arguments np_argmax : simpl never.

(** X10. A call of [choose_action] that explores does not read the Q-table:
    whatever the state index and the table, with [0 < action_size <= 14] it
    returns the catalogue entry at the drawn index, which is below
    [action_size]. *)
Theorem choose_action_exploring (self : QLearningAgent) (rs : RandomState) (state_index : Z) :
  ((rand rs).1 < epsilon self)%Q ->
  0 < action_size self <= 14 ->
  exists (action : Z) (chosen : pyobj),
    choose_action self rs state_index = Ok (chosen, action, (next_draw (rand rs).2).2) /\
    action = Z.of_N (next_draw (rand rs).2).1 mod action_size self /\
    0 <= action < action_size self /\
    possible_actions !! Z.to_nat action = Some chosen.
Proof.
  intros Hlt Hsize. unfold choose_action.
  destruct (rand rs) as [r rs1]. simpl in Hlt |- *.
  destruct (Qlt_le_dec r (epsilon self)) as [_|Hle].
  2: { exfalso. apply (Qlt_not_le _ _ Hlt). exact Hle. }
  unfold randint. destruct (action_size self <=? 0) eqn:E; [lia|].
  unfold next_draw. simpl.
  pose proof (Z.mod_pos_bound (Z.of_N (draws rs1 (cursor rs1))) (action_size self)
                ltac:(lia)) as Hd.
  set (k := Z.of_N (draws rs1 (cursor rs1)) mod action_size self) in *.
  destruct (possible_actions !! Z.to_nat k) as [chosen|] eqn:Hk.
  2: { apply lookup_ge_None in Hk. simpl in Hk. lia. }
  exists k, chosen. rewrite (py_getitem_nonneg _ _ _ (proj1 Hd) Hk). simpl.
  split_and!; [reflexivity | reflexivity | apply Hd | apply Hd | exact Hk].
Qed.

Lemma choose_action_exploring_witness :
  exists (action : Z) (chosen : pyobj),
    choose_action Sample.explorer Sample.always_8 12345
    = Ok (chosen, action, (next_draw (rand Sample.always_8).2).2) /\
    0 <= action < 14.
Proof.
  destruct (choose_action_exploring Sample.explorer Sample.always_8 12345)
    as (action & chosen & Hc & _ & Hr & _).
  - vm_compute. reflexivity.
  - vm_compute. split; congruence.
  - exists action, chosen. split; [exact Hc | exact Hr].
Defined.

(** X11. A greedy call of [choose_action] with a state index outside the
    rows of the table raises [IndexError], and so does a greedy call that
    finds the maximum of its row at an index the catalogue does not have. *)
Theorem choose_action_greedy_out_of_range (self : QLearningAgent) (rs : RandomState)
    (state_index : Z) :
  (epsilon self <= (rand rs).1)%Q ->
  state_index < - Z.of_nat (length (q_table self)) \/
  Z.of_nat (length (q_table self)) <= state_index \/
  (exists row action, py_getitem (q_table self) state_index = Ok row /\
                      np_argmax row = Ok action /\ 14 <= action) ->
  choose_action self rs state_index = Raise IndexError.
Proof.
  intros Hle Hout. unfold choose_action.
  destruct (rand rs) as [r rs1]. simpl in Hle |- *.
  destruct (Qlt_le_dec r (epsilon self)) as [Hlt|_].
  { exfalso. apply (Qlt_not_le _ _ Hlt). exact Hle. }
  destruct Hout as [Hout|[Hout|(row & action & -> & Harg & Hbig)]].
  - rewrite py_getitem_outside by auto. reflexivity.
  - rewrite py_getitem_outside by auto. reflexivity.
  - simpl. rewrite Harg. simpl. rewrite py_getitem_outside; [reflexivity|].
    right. simpl. lia.
Qed.

Lemma choose_action_greedy_out_of_range_witness :
  choose_action Sample.greedy (Sample.constant 5) 100 = Raise IndexError.
Proof.
  apply choose_action_greedy_out_of_range.
  - vm_compute. congruence.
  - right. left. vm_compute. congruence.
Defined.

Lemma np_getitem2_outside (cols : nat) (table : list (list Q)) (i j : Z) :
  rectangular cols table ->
  i < - Z.of_nat (length table) \/ Z.of_nat (length table) <= i \/
  j < - Z.of_nat cols \/ Z.of_nat cols <= j ->
  np_getitem2 table i j = Raise IndexError.
Proof.
  intros Hrect Hout. unfold np_getitem2.
  destruct (py_getitem table i) as [row|e] eqn:E.
  - simpl. apply py_getitem_Ok in E as (k & Hk & Hrow).
    eapply Forall_lookup_1 in Hrect; [|exact Hrow]. simpl in Hrect.
    apply py_index_Ok in Hk as [Hlt Hi].
    apply py_getitem_outside. rewrite Hrect. lia.
  - unfold py_getitem in E. destruct (py_index (length table) i) as [k|e'] eqn:Ek.
    + simpl in E. apply py_index_Ok in Ek as [Hlt _].
      destruct (table !! k) eqn:El; [discriminate|].
      apply lookup_ge_None in El. lia.
    + simpl in E. unfold py_index in Ek.
      destruct (_ && _) in Ek; [discriminate|]. destruct (_ && _) in Ek; [discriminate|].
      simpl. congruence.
Qed.

Lemma py_getitem_inside {A : Type} (l : list A) (i : Z) :
  - Z.of_nat (length l) <= i < Z.of_nat (length l) -> exists x, py_getitem l i = Ok x.
Proof.
  intros Hi. destruct (Z_lt_le_dec i 0) as [Hneg|Hpos].
  - apply py_getitem_negative. lia.
  - destruct (l !! Z.to_nat i) as [x|] eqn:E.
    + exists x. apply py_getitem_nonneg; assumption.
    + apply lookup_ge_None in E. lia.
Qed.

(** X12. On a table whose rows all have [cols] values, and for a reward that
    converts to a float, [update_q_table] succeeds exactly when the two state
    indices lie in [-rows, rows) and the action lies in [-cols, cols); it
    then replaces the table by one of the same shape and leaves every other
    field of the agent alone.  Otherwise it raises [IndexError]. *)
Theorem update_q_table_index_check (cols : nat) (self : QLearningAgent)
    (s a : Z) (reward : Q) (s' : Z) :
  rectangular cols (q_table self) ->
  fits_float64 reward ->
  let rows := Z.of_nat (length (q_table self)) in
  ((- rows <= s < rows /\ - Z.of_nat cols <= a < Z.of_nat cols /\ - rows <= s' < rows) /\
   exists self', update_q_table self s a reward s' = Ok self' /\
                 length (q_table self') = length (q_table self) /\
                 rectangular cols (q_table self') /\
                 state_size self' = state_size self /\
                 action_size self' = action_size self /\
                 alpha self' = alpha self /\
                 gamma self' = gamma self /\
                 epsilon self' = epsilon self /\
                 decay_rate self' = decay_rate self /\
                 epsilon_min self' = epsilon_min self) \/
  (~ (- rows <= s < rows /\ - Z.of_nat cols <= a < Z.of_nat cols /\ - rows <= s' < rows) /\
   update_q_table self s a reward s' = Raise IndexError).
Proof.
  intros Hrect _ rows. unfold update_q_table.
  destruct (Z_lt_le_dec s (- rows)) as [H1|H1];
    [|destruct (Z_lt_le_dec s rows) as [H2|H2];
      [destruct (Z_lt_le_dec a (- Z.of_nat cols)) as [H3|H3];
       [|destruct (Z_lt_le_dec a (Z.of_nat cols)) as [H4|H4]]|]].
  - right. split; [lia|]. rewrite (np_getitem2_outside cols) by auto. reflexivity.
  - right. split; [lia|]. rewrite (np_getitem2_outside cols) by auto. reflexivity.
  - destruct (py_getitem_inside (q_table self) s) as (row & Hrow); [fold rows; lia|].
    assert (length row = cols) as Hlen.
    { apply py_getitem_Ok in Hrow as (k & _ & Hk).
      eapply Forall_lookup_1 in Hrect; eauto. }
    destruct (py_getitem_inside row a) as (old & Hold); [rewrite Hlen; lia|].
    assert (np_getitem2 (q_table self) s a = Ok old) as Hcell
      by (unfold np_getitem2; rewrite Hrow; exact Hold).
    rewrite Hcell. simpl.
    destruct (Z_lt_le_dec s' (- rows)) as [H5|H5];
      [|destruct (Z_lt_le_dec s' rows) as [H6|H6]].
    + right. split; [lia|]. rewrite py_getitem_outside by (fold rows; auto). reflexivity.
    + left. split; [lia|].
      destruct (py_getitem_inside (q_table self) s') as (next_row & Hnext); [fold rows; lia|].
      rewrite Hnext. simpl.
      assert (length next_row = cols) as Hnlen.
      { apply py_getitem_Ok in Hnext as (k & _ & Hk).
        eapply Forall_lookup_1 in Hrect; eauto. }
      destruct (np_max_is_max next_row) as (best & -> & _).
      { intros ->. simpl in Hnlen. lia. }
      simpl.
      set (new := (old + _)%Q).
      destruct (np_setitem2_Ok _ _ _ new _ Hcell) as (r & c & row' & Hr & Hrow' & Hc & ->).
      simpl. eexists. split; [reflexivity|]. simpl. split_and!; try reflexivity.
      * apply length_insert.
      * apply Forall_insert; [exact Hrect|]. simpl. rewrite length_insert.
        eapply Forall_lookup_1 in Hrect; eauto.
    + right. split; [lia|]. rewrite py_getitem_outside by (fold rows; auto). reflexivity.
  - right. split; [lia|]. rewrite (np_getitem2_outside cols) by auto. reflexivity.
  - right. split; [lia|]. rewrite (np_getitem2_outside cols) by (fold rows; auto).
    reflexivity.
Qed.

Lemma update_q_table_index_check_witness :
  update_q_table Sample.learner 100 0 (-5)%Q 1 = Raise IndexError.
Proof.
  destruct (update_q_table_index_check 14 Sample.learner 100 0 (-5)%Q 1)
    as [(Hin & _)|(_ & Hraise)].
  - apply Forall_forall. intros row Hrow. apply elem_of_replicate in Hrow as [-> _].
    reflexivity.
  - split; vm_compute; congruence.
  - simpl in Hin. lia.
  - exact Hraise.
Defined.

End AgentEdges.

(** ** A fresh agent, and the floor of the exploration rate *)




(** X14. Once [epsilon * decay_rate] is at or below a floor [epsilon_min]
    that is not negative, with [decay_rate <= 1], every further call of
    [decay_exploration] leaves epsilon at exactly [epsilon_min]. *)
Theorem decay_exploration_stays_at_floor (self : QLearningAgent) (n : nat) :
  (epsilon self * decay_rate self <= epsilon_min self)%Q ->
  (0 <= epsilon_min self)%Q -> (decay_rate self <= 1)%Q ->
  epsilon (decayed (S n) self) = epsilon_min self.
Proof.
  intros Hfloor Hmin Hd.
  assert (forall a : QLearningAgent,
            (epsilon a * decay_rate a <= epsilon_min a)%Q ->
            epsilon (decay_exploration a) = epsilon_min a) as Hstep.
  { intros a Ha. simpl. unfold py_max.
    destruct (Qlt_le_dec (epsilon_min a) (epsilon a * decay_rate a)) as [Hlt|_];
      [|reflexivity].
    exfalso. apply (Qlt_not_le _ _ Hlt). exact Ha. }
  induction n as [|n IH].
  - apply Hstep. exact Hfloor.
  - change (decayed (S (S n)) self) with (decay_exploration (decayed (S n) self)).
    destruct (decayed_parameters (S n) self) as (Em & Ed & _).
    rewrite Hstep; [exact Em|]. rewrite IH, Em, Ed.
    rewrite <- (Qmult_1_r (epsilon_min self)) at 2.
    rewrite !(Qmult_comm (epsilon_min self)). apply Qmult_le_compat_r; assumption.
Qed.

Lemma decay_exploration_stays_at_floor_witness :
  epsilon (decayed 5 (with_epsilon Sample.learner 0.01)) = 0.01%Q.
Proof.
  apply (decay_exploration_stays_at_floor (with_epsilon Sample.learner 0.01) 4);
    vm_compute; congruence.
Defined.

(** ** Stability of the state indices *)

Section IndexStability.
Context {B : Backend}.

(** X15. Once a circuit has been given an index, every later lookup of a
    circuit of the same bucket, in any environment whose table has only
    grown since, returns that index and changes nothing. *)
Theorem state_index_is_stable (self self' : QuantumEnv) (state state' : QuantumCircuit) :
  extends (get_state_index self state).1 self' ->
  _hash_circuit state' = _hash_circuit state ->
  get_state_index self' state' = (self', (get_state_index self state).2).
Proof.
  intros [Hsub _] Hh. apply get_state_index_hit. rewrite Hh.
  eapply lookup_weaken; [|exact Hsub]. apply get_state_index_stored.
Qed.

(** X16. In an environment the program can reach, two circuits get the same
    index exactly when they fall into the same bucket. *)
Theorem state_index_separates_buckets (self : QuantumEnv) (c1 c2 : QuantumCircuit) :
  reachable self ->
  (get_state_index (get_state_index self c1).1 c2).2 = (get_state_index self c1).2 <->
  _hash_circuit c2 = _hash_circuit c1.
Proof.
  intros Hreach.
  pose proof (reachable_index _ c1 Hreach) as Hreach1.
  pose proof (reachable_table_ok _ (reachable_index _ c2 Hreach1)) as Hok.
  pose proof (get_state_index_stored (get_state_index self c1).1 c2) as H2.
  pose proof (get_state_index_stored self c1) as H1.
  destruct (get_state_index_extends (get_state_index self c1).1 c2) as [Hsub _].
  apply (lookup_weaken _ _ _ _ H1) in Hsub.
  split.
  - intros E. rewrite E in H2.
    destruct (table_back _ Hok _ _ H2) as [_ Ha].
    destruct (table_back _ Hok _ _ Hsub) as [_ Hb]. congruence.
  - intros E. rewrite E in H2. congruence.
Qed.

End IndexStability.

Lemma state_index_is_stable_witness :
  @get_state_index Reference.backend
    (@reset Reference.backend
       (@get_state_index Reference.backend QuantumEnv_init (Sample.x_circuit 3)).1).1
    (Sample.x_circuit 3)
  = ((@reset Reference.backend
        (@get_state_index Reference.backend QuantumEnv_init (Sample.x_circuit 3)).1).1,
     (@get_state_index Reference.backend QuantumEnv_init (Sample.x_circuit 3)).2).
Proof.
  apply (@state_index_is_stable Reference.backend QuantumEnv_init
           (@reset Reference.backend
              (@get_state_index Reference.backend QuantumEnv_init (Sample.x_circuit 3)).1).1
           (Sample.x_circuit 3) (Sample.x_circuit 3)).
  - apply reset_extends.
  - reflexivity.
Defined.

Lemma state_index_separates_buckets_witness :
  (@get_state_index Reference.backend
     (@get_state_index Reference.backend QuantumEnv_init (Sample.x_circuit 3)).1
     (Sample.x_circuit 3)).2
  = (@get_state_index Reference.backend QuantumEnv_init (Sample.x_circuit 3)).2.
Proof.
  apply (@state_index_separates_buckets Reference.backend QuantumEnv_init
           (Sample.x_circuit 3) (Sample.x_circuit 3)).
  - apply reachable_init.
  - reflexivity.
Defined.
